(** * MAGPRIME / UBSS: a shallow embedding of [algorithms/interference/UBSS.py]

    The module removes spacecraft interference from magnetometer-array
    data by underdetermined blind source separation.  This development
    embeds the module's own code (the centroid tracker, the two
    single-source-point tests, the per-bin reweighting loop and the
    [clean] driver) and states its properties.

    Conventions of the embedding.
    - A numpy [float64] is a binary64 [float] of the kernel, so division by
      zero, NaN and the IEEE comparisons behave as they do in numpy.  A
      [complex128] is a pair of floats.
    - The value of the variable [x] of [processData] carries its element
      type: the [except] clause makes it a [float64] array, which keeps
      only the real part of a complex number stored into it, and a solve
      makes it a [complex128] array.  The arrays of the driver ([B], the
      trend, [result]) are embedded as complex arrays, a real entry with a
      zero imaginary part; the statements about them concern shapes,
      references and the globals, not the numbers.
    - Reductions ([np.dot], [sum], [np.linalg.norm]) are left folds; the
      concrete evaluations below use inputs on which every summation order
      gives the same bits.  [np.abs] of a complex number is the [hypot] of
      libm.
    - Functions of other packages (libm, NSGT, HDBSCAN, cvxpy, scipy) and
      the number of CPUs of the host are parameters of the sections that
      use them.
    - Module-level variables of UBSS.py are the fields of [globals]; arrays
      that are shared by reference live in a heap. *)

From Stdlib Require Import Floats SpecFloat Uint63 ZArith String Lia.
From stdpp Require Import base option list.

Set Warnings "-inexact-float".
Local Open Scope Z_scope.
Local Open Scope nat_scope.

(** ** float64 and complex128 *)

Module F64.

Definition f0 : float := 0%float.
Definition f1 : float := 1%float.

(** [np.clip(x, lo, hi)]: [minimum(maximum(x, lo), hi)]; a NaN stays a NaN. *)
Definition clip (x lo hi : float) : float :=
  if PrimFloat.ltb x lo then lo else if PrimFloat.ltb hi x then hi else x.

(** [np.deg2rad(x)] is [x * (pi / 180)]. *)
Definition pi : float := 0x1.921fb54442d18p+1%float.
Definition deg2rad (x : float) : float := (x * (pi / 180))%float.

(** Python's builtin [max(a, b)]: [b] when [b > a], else [a]. *)
Definition py_max (a b : float) : float := if PrimFloat.ltb a b then b else a.

(** [sum] of a real vector. *)
Definition fsum (v : list float) : float :=
  fold_left (fun acc x => (acc + x)%float) v f0.

(** [np.dot] of two real vectors. *)
Definition dot (a b : list float) : float :=
  fsum (zip_with (fun x y => (x * y)%float) a b).

(** [np.linalg.norm] of a real vector. *)
Definition norm (a : list float) : float := PrimFloat.sqrt (dot a a).

End F64.

Record complex := Cx { re : float; im : float }.

Module C128.

Definition c0 : complex := Cx F64.f0 F64.f0.
Definition c1 : complex := Cx F64.f1 F64.f0.
Definition of_real (x : float) : complex := Cx x F64.f0.

Definition add (a b : complex) : complex :=
  Cx (re a + re b)%float (im a + im b)%float.
Definition sub (a b : complex) : complex :=
  Cx (re a - re b)%float (im a - im b)%float.
Definition mul (a b : complex) : complex :=
  Cx (re a * re b - im a * im b)%float (re a * im b + im a * re b)%float.

(** Neither part is a NaN or an infinity ([np.isfinite]). *)
Definition is_finite (a : complex) : bool :=
  PrimFloat.is_finite (re a) && PrimFloat.is_finite (im a).

End C128.

(** A one-dimensional complex array. *)
Abbreviation cvec := (list complex).

Definition np_real (v : cvec) : list float := map re v.
Definition np_imag (v : cvec) : list float := map im v.

(** [np.ones(n)]. *)
Definition np_ones (n : nat) : cvec := replicate n C128.c1.

(** [np.linalg.norm] of a complex vector: the root of the summed squared
    moduli. *)
Definition cnorm (v : cvec) : float :=
  PrimFloat.sqrt
    (F64.fsum (map (fun z => (re z * re z + im z * im z)%float) v)).

(** Elementwise [u + s * (v - u)], the scalar [s] promoted to complex. *)
Definition blend (s : float) (u v : cvec) : cvec :=
  zip_with (fun a b => C128.add a (C128.mul (C128.of_real s) (C128.sub b a))) u v.

(** ** Two-dimensional arrays

    A matrix is its shape and its rows; [np.array] of an empty list and a
    matrix with empty rows differ only in the shape. *)

Record matrix := Mat { nrows : nat; ncols : nat; rows : list cvec }.

(** Column [j] of a list of rows. *)
Definition column (rs : list cvec) (j : nat) : cvec :=
  map (fun r => default C128.c0 (r !! j)) rs.

(** [M.T]. *)
Definition transpose (m : matrix) : matrix :=
  Mat (ncols m) (nrows m) (map (column (rows m)) (seq 0 (ncols m))).

(** [M.size]. *)
Definition size (m : matrix) : nat := nrows m * ncols m.

(** Iterating over a matrix yields its rows. *)
Definition iter_rows (m : matrix) : list cvec := take (nrows m) (rows m).

(** ** The ordered dictionary of centroids

    [collections.OrderedDict]: keys in insertion order; assigning to a
    present key replaces the value in place, assigning to an absent key
    appends. *)

Abbreviation odict := (list (nat * cvec)).

Fixpoint od_get (d : odict) (k : nat) : option cvec :=
  match d with
  | [] => None
  | (k', v) :: d' => if Nat.eqb k' k then Some v else od_get d' k
  end.

Fixpoint od_set (d : odict) (k : nat) (v : cvec) : odict :=
  match d with
  | [] => [(k, v)]
  | (k', v') :: d' =>
      if Nat.eqb k' k then (k', v) :: d' else (k', v') :: od_set d' k v
  end.

Definition od_keys (d : odict) : list nat := map fst d.
Definition od_values (d : odict) : list cvec := map snd d.

(** ** Exceptions *)

Inductive exn :=
  | IndexError | TypeError | ValueError | ZeroDivisionError | SolverError.

(** A call returns a value or raises. *)
Inductive outcome (A : Type) : Type :=
  | Ok (a : A)
  | Raise (e : exn).
Arguments Ok {A} a.
Arguments Raise {A} e.

Definition obind {A B} (o : outcome A) (k : A -> outcome B) : outcome B :=
  match o with Ok a => k a | Raise e => Raise e end.

Notation "'try!' x := c1 'in' c2" := (obind c1 (fun x => c2))
  (at level 10, x name, c1 at level 100, c2 at level 200).

(** All of [f] over a list, stopping at the first exception. *)
Fixpoint omap {A B} (f : A -> outcome B) (l : list A) : outcome (list B) :=
  match l with
  | [] => Ok []
  | a :: l' => try! b := f a in try! bs := omap f l' in Ok (b :: bs)
  end.

(** ** N-dimensional arrays held by reference *)

Record ndarray := NdArray { shape : list nat; data : cvec }.

(** ** Functions of other packages

    What [problem.solve] leaves behind when it returns: [problem.status]
    and [x.value]. *)
Inductive solved := Solved (status : string) (value : option cvec).

Record externals := Externals {
  (* libm, behind numpy's ufuncs *)
  np_cos : float -> float;
  np_sin : float -> float;
  np_arccos : float -> float;
  np_arctan2 : float -> float -> float;
  (* [hypot], behind [np.abs] of a complex number *)
  np_hypot : float -> float -> float;
  (* [np.round(_, 3)] on one number *)
  np_round3 : float -> float;
  (* [CQ_NSGT(lowf, fmax, bins, fs, length, multichannel=True).forward(sig)]:
     for each channel, its subbands *)
  nsgt_forward :
    float -> float -> nat -> float -> nat -> matrix -> outcome (list (list cvec));
  (* [.backward(c)]: one signal for each channel *)
  nsgt_backward :
    float -> float -> nat -> float -> nat -> list (list cvec) -> outcome (list cvec);
  (* [HDBSCAN(min_samples=4).fit_predict(X)]: one label for each row of X *)
  hdbscan_fit_predict : list (list float) -> outcome (list Z);
  (* [problem.solve(warm_start=True)] for the problem of [processData], read
     off the values it depends on: [A.value], [b.value], the value of the
     weight parameter in the objective, and the value [x] holds *)
  cvx_solve : matrix -> cvec -> list float -> option cvec -> outcome solved;
  (* [scipy.ndimage.uniform_filter1d(B, size, axis=-1)] *)
  uniform_filter1d : ndarray -> nat -> outcome ndarray;
  (* [multiprocessing.cpu_count()] *)
  cpu_count : nat
}.

(** [np.abs] of a complex number and of a complex array. *)
Definition c_abs (E : externals) (a : complex) : float := np_hypot E (re a) (im a).
Definition np_abs (E : externals) (v : cvec) : list float := map (c_abs E) v.

(** ** Module-level variables of UBSS.py *)

Record globals := Globals {
  uf : nat;                 (* uniform filter size for detrending *)
  detrend : bool;
  sigma : float;
  lambda_ : float;
  sspTol : float;
  bpo : nat;
  fs : float;
  weight : float;
  boom : option Z;          (* None, or the index of the boom magnetometer *)
  cs_iters : Z;
  magnetometers : nat;
  result : option nat;      (* heap address of the last demixed array *)
  clusterCentroids : odict
}.

(** The values the module is loaded with. *)
Definition initial_globals : globals :=
  {| uf := 400; detrend := false; sigma := 100%float; lambda_ := 1.2%float;
     sspTol := 15%float; bpo := 10; fs := 1%float; weight := 1%float;
     boom := None; cs_iters := 5%Z; magnetometers := 3; result := None;
     clusterCentroids := [(0, np_ones 3)] |}.

Definition with_centroids (g : globals) (d : odict) : globals :=
  {| uf := uf g; detrend := detrend g; sigma := sigma g; lambda_ := lambda_ g;
     sspTol := sspTol g; bpo := bpo g; fs := fs g; weight := weight g;
     boom := boom g; cs_iters := cs_iters g; magnetometers := magnetometers g;
     result := result g; clusterCentroids := d |}.

Definition with_result (g : globals) (r : option nat) : globals :=
  {| uf := uf g; detrend := detrend g; sigma := sigma g; lambda_ := lambda_ g;
     sspTol := sspTol g; bpo := bpo g; fs := fs g; weight := weight g;
     boom := boom g; cs_iters := cs_iters g; magnetometers := magnetometers g;
     result := r; clusterCentroids := clusterCentroids g |}.

(** [setMagnetometers(n)]: records the sensor count and replaces the
    dictionary by a fresh one that holds only the ambient centroid. *)
Definition setMagnetometers (n : nat) (g : globals) : globals :=
  {| uf := uf g; detrend := detrend g; sigma := sigma g; lambda_ := lambda_ g;
     sspTol := sspTol g; bpo := bpo g; fs := fs g; weight := weight g;
     boom := boom g; cs_iters := cs_iters g; magnetometers := n;
     result := result g; clusterCentroids := [(0, np_ones n)] |}.

(** ** The centroid tracker *)

Section Tracker.

Variable E : externals.

(** The angle test of [updateCentroids]: the real parts of both vectors,
    each divided by the vector's norm, and the arc cosine of their clipped
    dot product. *)
Definition centroid_angle (existing centroid : cvec) : float :=
  let a := map (fun x => (x / cnorm existing)%float) (np_real existing) in
  let b := map (fun x => (x / cnorm centroid)%float) (np_real centroid) in
  np_arccos E (F64.clip (F64.dot a b) (-1)%float 1%float).

(** One turn of [for cluster in clusterCentroids]; the state is the
    dictionary and the flag [newC]. *)
Definition match_cluster (tol learnRate : float) (centroid : cvec)
    (st : odict * bool) (cluster : nat) : odict * bool :=
  match od_get st.1 cluster with
  | None => st
  | Some existing =>
      if PrimFloat.ltb (centroid_angle existing centroid) (F64.deg2rad tol)
      then
        (if negb (Nat.eqb cluster 0)
         then od_set st.1 cluster (blend learnRate existing centroid)
         else st.1,
         false)
      else st
  end.

(** The body of [for centroid in newCentroids.T]. *)
Definition absorb (tol learnRate : float) (d : odict) (centroid : cvec) : odict :=
  let st := fold_left (match_cluster tol learnRate centroid) (od_keys d) (d, true) in
  if st.2 then od_set st.1 (length st.1) centroid else st.1.

(** [updateCentroids(newCentroids, learnRate)]: the new globals and the
    returned array of all centroids.  The embedding covers the calls whose
    new centroids have the length of the stored ones, as in the calls of
    [clusterNSGT], where every centroid has one entry for each
    magnetometer; for another length [np.dot] raises [ValueError]. *)
Definition updateCentroids (newCentroids : matrix) (learnRate : float)
    (g : globals) : globals * list cvec :=
  let g' :=
    if Nat.ltb 0 (size (transpose newCentroids))
    then with_centroids g
           (fold_left (absorb (sspTol g) learnRate)
                      (iter_rows (transpose newCentroids)) (clusterCentroids g))
    else g in
  (g', od_values (clusterCentroids g')).

(** A run of [updateCentroids] calls, each with its argument and rate. *)
Definition run_updates (calls : list (matrix * float)) (g : globals) : globals :=
  fold_left (fun g c => (updateCentroids c.1 c.2 g).1) calls g.

End Tracker.


(** ** Python and numpy helpers *)

(** An [int] as a [float64]. *)
Definition float_of_nat (n : nat) : float :=
  PrimFloat.of_uint63 (Uint63.of_Z (Z.of_nat n)).

(** [l[i]] for a Python index: a negative [i] counts from the end. *)
Definition py_index {A} (l : list A) (i : Z) : option A :=
  if (0 <=? i)%Z then l !! Z.to_nat i
  else if (- Z.of_nat (length l) <=? i)%Z then l !! Z.to_nat (Z.of_nat (length l) + i)
  else None.

(** [row[mask]]: the entries whose mask bit is set. *)
Fixpoint mask_select {A} (mask : list bool) (row : list A) : list A :=
  match mask, row with
  | m :: mask', a :: row' =>
      if m then a :: mask_select mask' row' else mask_select mask' row'
  | _, _ => []
  end.

(** [np.argmin] over float64: the scan keeps the first smallest entry and
    stops at the first NaN. *)
Fixpoint argmin_from (v : list float) (i : nat) (mp : float) (mi : nat) : nat :=
  match v with
  | [] => mi
  | x :: v' =>
      if PrimFloat.leb mp x then argmin_from v' (S i) mp mi
      else if PrimFloat.is_nan x then i
      else argmin_from v' (S i) x i
  end.

Definition np_argmin (v : list float) : outcome nat :=
  match v with
  | [] => Raise ValueError
  | x :: v' => Ok (if PrimFloat.is_nan x then 0 else argmin_from v' 1 x 0)
  end.

(** [A @ x] for a complex matrix and vector. *)
Definition cdot (r x : cvec) : complex :=
  fold_left C128.add (zip_with C128.mul r x) C128.c0.
Definition matvec (A : matrix) (x : cvec) : cvec := map (fun r => cdot r x) (rows A).

(** [np.vstack] of rows: they must have one length. *)
Definition np_vstack (rs : list cvec) : outcome matrix :=
  match rs with
  | [] => Raise ValueError
  | r :: _ =>
      if forallb (fun r' => Nat.eqb (length r') (length r)) rs
      then Ok (Mat (length rs) (length r) rs)
      else Raise ValueError
  end.

(** [[f(B[i]) for i in range(n)]]. *)
Definition first_n {A B} (n : nat) (f : A -> B) (l : list A) : outcome (list B) :=
  if Nat.leb n (length l) then Ok (map f (take n l)) else Raise IndexError.

(** ** The point filters *)

Section Filters.

Variable E : externals.

(** [np.cos(np.deg2rad(sspTol))]. *)
Definition ssp_threshold (g : globals) : float := np_cos E (F64.deg2rad (sspTol g)).

(** [filterMagnitude]: keeps the bins whose norm over the sensors exceeds
    [lambda_ * sigma]. *)
Definition filterMagnitude (g : globals) (B : matrix) : outcome matrix :=
  let m := map (fun j => F64.norm (np_abs E (column (rows B) j))) (seq 0 (ncols B)) in
  let magFilter := map (fun x => PrimFloat.ltb (lambda_ g * sigma g)%float x) m in
  try! B_m := first_n (magnetometers g) (mask_select magFilter) (rows B) in
  Ok (Mat (magnetometers g) (length (filter (fun b : bool => b) magFilter)) B_m).

(** [norm[norm == 0] = 1]. *)
Definition one_if_zero (x : float) : float := if PrimFloat.eqb x 0 then 1%float else x.

(** The similarity [filterSSP] computes for one bin (one column of [B]). *)
Definition filterSSP_cos_sim (col : cvec) : float :=
  let a := np_real col in
  let b := np_imag col in
  let a_dot_b := F64.fsum (zip_with (fun x y => (x * y)%float) a b) in
  let norm_a := one_if_zero (F64.norm a) in
  let norm_b := one_if_zero (F64.norm b) in
  PrimFloat.abs (a_dot_b / (norm_a * norm_b))%float.

(** The test [filterSSP] applies to one bin. *)
Definition filterSSP_test (g : globals) (col : cvec) : bool :=
  PrimFloat.leb (ssp_threshold g) (filterSSP_cos_sim col).

Definition SSP_Bools (g : globals) (B : matrix) : list bool :=
  map (fun j => filterSSP_test g (column (rows B) j)) (seq 0 (ncols B)).

(** [filterSSP]: keeps the single-source bins. *)
Definition filterSSP (g : globals) (B : matrix) : outcome matrix :=
  let bools := SSP_Bools g B in
  try! B_s := first_n (magnetometers g) (mask_select bools) (rows B) in
  Ok (Mat (magnetometers g) (length (filter (fun b : bool => b) bools)) B_s).

(** The similarity [processData] computes for its bin. *)
Definition processData_cos_sim (data : cvec) : float :=
  let b_real := np_real data in
  let b_imag := np_imag data in
  (F64.dot b_real b_imag / (F64.norm b_real * F64.norm b_imag))%float.

(** [SSP = cos_sim >= threshold] in [processData]. *)
Definition processData_SSP (g : globals) (data : cvec) : bool :=
  PrimFloat.leb (ssp_threshold g) (processData_cos_sim data).

End Filters.

(** ** The per-bin demixer *)

(** [x.value]: the [float64] array [np.zeros(n_clusters)] of the [except]
    clause, or the [complex128] array a solve leaves. *)
Inductive xarray := Float64 (v : list float) | Complex128 (v : cvec).

(** The entries as complex numbers: what numpy makes of the array where it
    meets a complex operand. *)
Definition promote (x : xarray) : cvec :=
  match x with Float64 v => map C128.of_real v | Complex128 v => v end.

Definition x_length (x : xarray) : nat :=
  match x with Float64 v => length v | Complex128 v => length v end.

Section Demixer.

Variable E : externals.

(** [np.abs(x.value)]. *)
Definition x_abs (x : xarray) : list float :=
  match x with Float64 v => map PrimFloat.abs v | Complex128 v => np_abs E v end.

(** [x.value[0] = z] for a complex number [z]: a [float64] array keeps the
    real part of [z]. *)
Definition x_set0 (x : xarray) (z : complex) : xarray :=
  match x with
  | Float64 v => Float64 (<[0 := re z]> v)
  | Complex128 v => Complex128 (<[0 := z]> v)
  end.

(** [calculate_delta_s(A, x)]. *)
Definition calculate_delta_s (A : matrix) (x : cvec) : float :=
  let Ax_norm := cnorm (matvec A x) in
  let x_norm := cnorm x in
  let q := (Ax_norm / x_norm)%float in
  let ratio := (q * q)%float in
  F64.py_max (PrimFloat.abs (ratio - 1)) (PrimFloat.abs (1 - ratio)).

(** The objects [processData] works on.  The problem is built once, from
    the variable [x] and the parameter object created for the weights; the
    objective keeps that parameter object.  The local name [w] starts as a
    second reference to it and can later be bound to an expression
    [cp.inv_pos(cp.abs(x) + 0.01)] instead.
    - [x_value]: [x.value];
    - [w_param]: the value held by the parameter object of the objective;
    - [w_is_param]: whether the name [w] still refers to that object;
    - [solved_with]: a record of the objective weights in force at each
      [problem.solve] call, oldest first (it is not a variable of the code). *)
Record cs_state := CsState {
  x_value : option xarray;
  w_param : list float;
  w_is_param : bool;
  solved_with : list (list float)
}.

(** The state before the loop: [weights = np.ones(n_clusters)/n_clusters]. *)
Definition cs_initial (n_clusters : nat) : cs_state :=
  CsState None
    (replicate n_clusters (1 / float_of_nat n_clusters)%float)
    true [].

(** The [except:] clause: with no value in [x] yet, [x.value] becomes the
    [float64] array [np.zeros(n_clusters)], and the entry of [b] of smallest
    modulus is stored into its entry 0, which keeps the real part. *)
Definition fallback (n_clusters : nat) (data : cvec) : outcome xarray :=
  try! k := np_argmin (np_abs E data) in
  match data !! k, n_clusters with
  | Some v, S _ => Ok (x_set0 (Float64 (replicate n_clusters F64.f0)) v)
  | _, _ => Raise IndexError
  end.

(** The [try] statement of one turn of the loop; the flag says whether the
    loop is left by [break]. *)
Definition attempt (A : matrix) (data : cvec) (n_clusters : nat) (st : cs_state)
    : outcome (cs_state * bool) :=
  let log := solved_with st ++ [w_param st] in
  match cvx_solve E A data (w_param st) (promote <$> x_value st) with
  | Ok (Solved status v) =>
      Ok (CsState (Complex128 <$> v) (w_param st) (w_is_param st) log,
          String.eqb status "optimal")
  | Raise _ =>
      match x_value st with
      | None =>
          try! x0 := fallback n_clusters data in
          Ok (CsState (Some x0) (w_param st) (w_is_param st) log, false)
      | Some _ => Ok (CsState (x_value st) (w_param st) (w_is_param st) log, false)
      end
  end.

(** [w = cp.inv_pos(cp.abs(x) + 0.01)]: the name [w] is bound to a new
    expression; no object changes. *)
Definition rebind_w (st : cs_state) : cs_state :=
  CsState (x_value st) (w_param st) false (solved_with st).

(** The value of the expression [cp.inv_pos(cp.abs(x) + 0.01)]. *)
Definition inv_pos_value (x : xarray) : list float :=
  map (fun a => (1 / (a + 0.01))%float) (x_abs x).

(** The last branch: the two assignments to [w.value[0]].  Through the
    parameter object they change its value in place; through an expression
    they write into an array computed for the occasion. *)
Definition nudge_ambient_weight (x : xarray) (st : cs_state) : outcome cs_state :=
  let x_hat := x_abs x in
  match x_hat with
  | [] => Raise IndexError
  | x_hat0 :: x_hat_tail =>
      let x_ratio := (F64.fsum x_hat_tail / (x_hat0 + 0.01))%float in
      let w_value := if w_is_param st then w_param st else inv_pos_value x in
      match w_value with
      | [] => Raise IndexError
      | w0 :: _ =>
          let w0' := (w0 + 0.1 * (x_ratio - w0))%float in
          let w0'' := F64.clip w0' 0.01%float 100%float in
          Ok (if w_is_param st
              then CsState (x_value st) (<[0 := w0'']> (w_param st)) true (solved_with st)
              else st)
      end
  end.

(** The statements after the [try] statement. *)
Definition reweight (A : matrix) (SSP : bool) (st : cs_state) : outcome cs_state :=
  if SSP then Ok (rebind_w st)
  else
    match x_value st with
    | None => Raise TypeError
    | Some x =>
        let delta := calculate_delta_s A (promote x) in
        if PrimFloat.ltb delta (PrimFloat.sqrt 2 - 1)%float
        then Ok (rebind_w st)
        else nudge_ambient_weight x st
    end.

(** [for i in range(cs_iters)]. *)
Fixpoint cs_loop (iters : nat) (A : matrix) (data : cvec) (n_clusters : nat)
    (SSP : bool) (st : cs_state) : outcome cs_state :=
  match iters with
  | 0 => Ok st
  | S iters' =>
      try! r := attempt A data n_clusters st in
      if r.2 then Ok r.1
      else
        try! st' := reweight A SSP r.1 in
        cs_loop iters' A data n_clusters SSP st'
  end.

(** The boom check that ends [processData]: [np.abs(x.value[0])] is
    compared with [np.abs(b.value[boom])], and the measurement of the boom
    is stored into [x.value[0]]. *)
Definition boom_check (g : globals) (data : cvec) (x : option xarray)
    : outcome (option xarray) :=
  match boom g with
  | None => Ok x
  | Some i =>
      if (i =? 0)%Z then Ok x
      else
        match x with
        | None => Raise TypeError
        | Some xv =>
            match x_abs xv !! 0, py_index data i with
            | Some x0, Some bi =>
                if PrimFloat.leb (c_abs E bi) x0
                then Ok (Some (x_set0 xv bi))
                else Ok x
            | _, _ => Raise IndexError
            end
        end
  end.

(** The loop of [processData] with the state it ends in.  Before the loop,
    [b.value = data] raises [ValueError] for a value that has not the shape
    [(magnetometers,)] of [b] and for a value with a NaN or an infinite
    part. *)
Definition processData_loop (g : globals) (A : matrix) (n_clusters : nat)
    (data : cvec) : outcome cs_state :=
  if negb (Nat.eqb (length data) (magnetometers g)) then Raise ValueError
  else if negb (forallb C128.is_finite data) then Raise ValueError
  else
    cs_loop (Z.to_nat (cs_iters g)) A data n_clusters
      (processData_SSP E g data) (cs_initial n_clusters).

(** [processData(A, b, n_clusters, data)]; [b] is the parameter of shape
    [(magnetometers,)] whose value [data] becomes, and [A] the parameter
    of shape [(magnetometers, n_clusters)] that [weightedReconstruction]
    makes of the centroids (the construction of the problem for an [A] of
    another shape is not part of the embedding). *)
Definition processData (g : globals) (A : matrix) (n_clusters : nat)
    (data : cvec) : outcome (option xarray) :=
  try! st := processData_loop g A n_clusters data in
  boom_check g data (x_value st).

End Demixer.

(** ** Clustering and the mixing matrix *)

Section Clustering.

Variable E : externals.

(** The transform both [clusterNSGT] and [demixNSGT] set up and apply:
    [lowf = 2 * bpo * fs / length], [fmax = fs/2], [bins = bpo]. *)
Definition nsgt_lowf (g : globals) (length : nat) : outcome float :=
  if Nat.eqb length 0 then Raise ZeroDivisionError
  else Ok (float_of_nat (2 * bpo g) * fs g / float_of_nat length)%float.

Definition forward (g : globals) (sig : matrix) : outcome (list (list cvec)) :=
  try! lowf := nsgt_lowf g (ncols sig) in
  nsgt_forward E lowf (fs g / 2)%float (bpo g) (fs g) (ncols sig) sig.

Definition backward (g : globals) (length : nat) (c : list (list cvec))
    : outcome (list cvec) :=
  try! lowf := nsgt_lowf g length in
  nsgt_backward E lowf (fs g / 2)%float (bpo g) (fs g) length c.

(** [np.vstack([np.hstack(B[i]) for i in range(magnetometers)])]. *)
Definition stack_subbands (g : globals) (B : list (list cvec)) : outcome matrix :=
  try! rs := first_n (magnetometers g) (fun sb : list cvec => concat sb) B in
  np_vstack rs.

(** Column [j] of a real matrix given by its rows. *)
Definition fcolumn (rs : list (list float)) (j : nat) : list float :=
  map (fun r => default F64.f0 (r !! j)) rs.

(** [np.where(n != 0, x / n, 0.)] on one entry. *)
Definition safe_div (x n : float) : float :=
  if negb (PrimFloat.eqb n 0) then (x / n)%float else F64.f0.

(** The feature rows [H_tk] of [clusterNSGT]: projected magnitudes, then
    cosines, then sines of the phase differences to sensor 0. *)
Definition features (B_ssp : matrix) : outcome (list (list float)) :=
  match rows B_ssp with
  | [] => Raise IndexError
  | row0 :: _ =>
      let B_abs := map (np_abs E) (rows B_ssp) in
      let angle := fun z : complex => np_arctan2 E (im z) (re z) in
      let B_ang :=
        map (fun r => zip_with (fun z z0 => PrimFloat.abs (angle z - angle z0)%float) r row0)
            (rows B_ssp) in
      let B_cos := map (map (np_cos E)) B_ang in
      let B_sin := map (map (np_sin E)) B_ang in
      let norms :=
        map (fun j => PrimFloat.sqrt
                        (F64.fsum (map (fun x => (x * x)%float) (fcolumn B_abs j))))
            (seq 0 (ncols B_ssp)) in
      let B_projected := map (fun r => zip_with safe_div r norms) B_abs in
      Ok (B_projected ++ B_cos ++ B_sin)
  end.

(** [np.mean(C, axis=0)] for the member points [C], each of [dim] entries. *)
Definition mean_point (dim : nat) (C : list (list float)) : list float :=
  map (fun j => (F64.fsum (fcolumn C j) / float_of_nat (length C))%float) (seq 0 dim).

(** [clusterData(B)]: the rounded centroids, one row for each cluster that
    is not noise, and the labels.  [np.matrix] of an empty list has shape
    (1, 0). *)
Definition clusterData (H_tk : list (list float)) (n_points : nat)
    : outcome (nat * nat * list (list float) * list Z) :=
  let points := map (fcolumn H_tk) (seq 0 n_points) in
  try! labels := hdbscan_fit_predict E points in
  let n_clusters_ :=
    length (remove_dups labels) - (if bool_decide ((-1)%Z ∈ labels) then 1 else 0) in
  let C := map (fun i => mask_select (map (Z.eqb (Z.of_nat i)) labels) points)
               (seq 0 n_clusters_) in
  let centroids := map (mean_point (length H_tk)) C in
  let rounded := map (map (np_round3 E)) centroids in
  Ok (match n_clusters_ with
      | 0 => (1, 0, [[]], labels)
      | S _ => (n_clusters_, length H_tk, rounded, labels)
      end).

(** The mixing matrix [clusterNSGT] builds from the centroids: unit gain
    times [exp(1j * phase)], one row for each cluster. *)
Definition mixing_row (m : nat) (centroid : list float) : cvec :=
  let gain := take m centroid in
  let B_cos := take m (drop m centroid) in
  let B_sin := drop (2 * m) centroid in
  let phase := zip_with (fun s c => np_arctan2 E s c) B_sin B_cos in
  let norm_ := PrimFloat.sqrt (F64.fsum (map (fun x => (x * x)%float) gain)) in
  let gain' := map (fun x => safe_div x norm_) gain in
  zip_with (fun x p => C128.mul (C128.of_real x) (Cx (np_cos E p) (np_sin E p)))
           gain' phase.

(** [clusterNSGT(sig)]: estimates mixing directions from one axis and merges
    them into the dictionary. *)
Definition clusterNSGT (sig : matrix) (g : globals) : outcome unit * globals :=
  let estimate :=
    try! B0 := forward g sig in
    try! B := stack_subbands g B0 in
    try! B_m := filterMagnitude E g B in
    try! B_ssp := filterSSP E g B_m in
    try! H_tk := features B_ssp in
    try! cd := clusterData H_tk (ncols B_ssp) in
    let '(k, width, centroids, _) := cd in
    let m := magnetometers g in
    let mixingMatrix :=
      Mat k (Nat.min m width) (map (mixing_row m) centroids) in
    Ok (transpose mixingMatrix) in
  match estimate with
  | Ok mixingMatrixT => (Ok tt, (updateCentroids E mixingMatrixT 0.1%float g).1)
  | Raise e => (Raise e, g)
  end.

End Clustering.

(** ** Reconstruction *)

Section Reconstruction.

Variable E : externals.

(** [np.array(result).T] for the list of per-bin solutions: the solutions
    must all be vectors of one length; a [float64] solution among them is
    promoted. *)
Definition stack_solutions (results : list (option xarray)) : outcome matrix :=
  match results with
  | [] => Ok (Mat 0 0 [])
  | None :: _ => Raise ValueError
  | Some x0 :: _ =>
      try! xs := omap (fun r : option xarray =>
                         match r with
                         | Some x => if Nat.eqb (x_length x) (x_length x0)
                                     then Ok (promote x)
                                     else Raise ValueError
                         | None => Raise ValueError
                         end) results in
      Ok (transpose (Mat (length results) (x_length x0) xs))
  end.

(** [weightedReconstruction(sig)]: every bin (column of [sig]) is demixed
    against the matrix of the centroids known at the call.  The parameter
    [A] takes the centroids as its value and, like [b], raises [ValueError]
    for a NaN or an infinite part; [mp.Pool(processes=mp.cpu_count()-1)]
    raises [ValueError] for less than one process.  The workers read the
    module globals of the caller (they are forked from it), and
    [pool.imap] returns the solutions in the order of the bins and raises
    what the first failing bin raised. *)
Definition weightedReconstruction (g : globals) (sig : matrix) : outcome matrix :=
  let n_clusters := length (clusterCentroids g) in
  let centroids := od_values (clusterCentroids g) in
  let A := transpose (Mat n_clusters (length (default [] (head centroids))) centroids) in
  if negb (forallb (forallb C128.is_finite) centroids) then Raise ValueError
  else if Nat.ltb (cpu_count E - 1) 1 then Raise ValueError
  else
    try! results := omap (processData E g A n_clusters) (iter_rows (transpose sig)) in
    stack_solutions results.

(** The inner loop of [demixNSGT]: [arr] cut into pieces of the recorded
    lengths. *)
Fixpoint split_subbands (shapes : list nat) (arr : cvec) : list cvec :=
  match shapes with
  | [] => []
  | n :: shapes' => take n arr :: split_subbands shapes' (drop n arr)
  end.

(** [np.array(sig_r)] for a list of signals. *)
Definition np_array (sig_r : list cvec) : outcome ndarray :=
  match sig_r with
  | [] => Ok (NdArray [0] [])
  | s0 :: _ =>
      if forallb (fun s => Nat.eqb (length s) (length s0)) sig_r
      then Ok (NdArray [length sig_r; length s0] (concat sig_r))
      else Raise ValueError
  end.

(** [demixNSGT(sig)] up to the array it builds. *)
Definition demix (g : globals) (sig : matrix) : outcome ndarray :=
  try! B := forward E g sig in
  match B with
  | [] => Raise IndexError
  | B0 :: _ =>
      let shapes := map (fun sb : cvec => length sb) B0 in
      try! B_nsgt := stack_subbands g B in
      try! B_reconstructed := weightedReconstruction g B_nsgt in
      let S_nsgt := map (split_subbands shapes) (iter_rows B_reconstructed) in
      try! sig_r := backward E g (ncols sig) S_nsgt in
      np_array sig_r
  end.

End Reconstruction.

(** ** The heap and the driver *)

Record world := World { glob : globals; heap : list ndarray }.

(** A computation on the world; what it changed before raising stays
    changed. *)
Definition M (A : Type) : Type := world -> outcome A * world.

Definition mret {A} (a : A) : M A := fun w => (Ok a, w).
Definition mraise {A} (e : exn) : M A := fun w => (Raise e, w).
Definition mbind {A B} (c : M A) (k : A -> M B) : M B :=
  fun w => match c w with
           | (Ok a, w') => k a w'
           | (Raise e, w') => (Raise e, w')
           end.
Definition mlift {A} (o : outcome A) : M A := fun w => (o, w).

Notation "'run!' x := c1 'in' c2" := (mbind c1 (fun x => c2))
  (at level 10, x name, c1 at level 100, c2 at level 200).

(** A new array object. *)
Definition alloc (a : ndarray) : M nat :=
  fun w => (Ok (length (heap w)), World (glob w) (heap w ++ [a])).

(** The array behind a reference. *)
Definition load (l : nat) : M ndarray :=
  fun w => match heap w !! l with
           | Some a => (Ok a, w)
           | None => (Raise ValueError, w)
           end.

(** An in-place write to the array behind a reference. *)
Definition store (l : nat) (a : ndarray) : M unit :=
  fun w => (Ok tt, World (glob w) (<[l := a]> (heap w))).

Definition on_globals {A} (f : globals -> outcome A * globals) : M A :=
  fun w => let r := f (glob w) in (r.1, World r.2 (heap w)).

(** A reference to a whole array, or the view [a[i]] of one of its rows. *)
Inductive ref := Whole (l : nat) | Row (l : nat) (i : nat).

Definition prod_list (l : list nat) : nat := fold_right Nat.mul 1 l.

(** [a[i]] as a value. *)
Definition nd_row (a : ndarray) (i : nat) : outcome ndarray :=
  match shape a with
  | n :: sh =>
      if Nat.ltb i n
      then Ok (NdArray sh (take (prod_list sh) (drop (i * prod_list sh) (data a))))
      else Raise IndexError
  | [] => Raise IndexError
  end.

(** [a[i] = v] or [a[i] += v] on the stored data: row [i] is replaced. *)
Definition nd_set_row (a : ndarray) (i : nat) (v : cvec) : ndarray :=
  let m := prod_list (tail (shape a)) in
  NdArray (shape a) (take (i * m) (data a) ++ v ++ drop (i * m + m) (data a)).

(** The array seen through a reference. *)
Definition deref (w : world) (r : ref) : option ndarray :=
  match r with
  | Whole l => heap w !! l
  | Row l i => match heap w !! l with
               | Some a => match nd_row a i with Ok v => Some v | Raise _ => None end
               | None => None
               end
  end.


Section Driver.

Variable E : externals.

(** [a - b] and [a + b] for arrays of one shape (scipy's filter returns an
    array of its input's shape; broadcasting between different shapes is
    not modelled and raises). *)
Definition nd_zip (f : complex -> complex -> complex) (a b : ndarray) : outcome ndarray :=
  if bool_decide (shape a = shape b)
  then Ok (NdArray (shape a) (zip_with f (data a) (data b)))
  else Raise ValueError.

(** [np.mean(a, axis=0)]. *)
Definition nd_mean0 (a : ndarray) : outcome ndarray :=
  match shape a with
  | n :: sh =>
      let m := prod_list sh in
      let cell := fun p =>
        let s := fold_left C128.add
                   (map (fun i => default C128.c0 (data a !! (i * m + p))) (seq 0 n))
                   C128.c0 in
        Cx (re s / float_of_nat n)%float (im s / float_of_nat n)%float in
      Ok (NdArray sh (map cell (seq 0 m)))
  | [] => Raise ValueError
  end.

(** [B[:, axis, :]] of a three-dimensional array. *)
Definition nd_axis (a : ndarray) (axis : nat) : outcome matrix :=
  match shape a with
  | [ns; na; n] =>
      if Nat.ltb axis na
      then Ok (Mat ns n (map (fun s => take n (drop ((s * na + axis) * n) (data a)))
                             (seq 0 ns)))
      else Raise IndexError
  | _ => Raise IndexError
  end.

(** A two-dimensional array as a matrix. *)
Definition nd_matrix (a : ndarray) : outcome matrix :=
  match shape a with
  | [ns; n] => Ok (Mat ns n (map (fun s => take n (drop (s * n) (data a))) (seq 0 ns)))
  | _ => Raise ValueError
  end.

(** [a.shape[0]] and [a.shape[-1]]. *)
Definition shape_first (a : ndarray) : outcome nat :=
  match head (shape a) with Some n => Ok n | None => Raise IndexError end.
Definition shape_last (a : ndarray) : outcome nat :=
  match last (shape a) with Some n => Ok n | None => Raise IndexError end.

(** [demixNSGT(sig)]: the demixed array is a new object, which the global
    [result] then refers to. *)
Definition demixNSGT (sig : matrix) : M nat :=
  fun w =>
    match demix E (glob w) sig with
    | Ok arr =>
        (Ok (length (heap w)),
         World (with_result (glob w) (Some (length (heap w)))) (heap w ++ [arr]))
    | Raise e => (Raise e, w)
    end.

(** [result[axis] = v] for a row [v]; a row of one entry is broadcast. *)
Definition assign_row (res : nat) (axis : nat) (v : ndarray) : M unit :=
  run! a := load res in
  match shape a, shape v with
  | [k; n], [n'] =>
      if negb (Nat.ltb axis k) then mraise IndexError
      else if Nat.eqb n' n then store res (nd_set_row a axis (data v))
      else if Nat.eqb n' 1
           then store res (nd_set_row a axis (replicate n (default C128.c0 (head (data v)))))
      else mraise ValueError
  | _, _ => mraise ValueError
  end.

(** The body of [for axis in range(3)]. *)
Definition clean_axis (B : nat) (res : nat) (axis : nat) : M unit :=
  run! b := load B in
  run! n := mlift (shape_first b) in
  run! _ := on_globals (fun g => (Ok tt, setMagnetometers n g)) in
  run! sig := mlift (nd_axis b axis) in
  run! _ := on_globals (clusterNSGT E sig) in
  run! b' := load B in
  run! sig' := mlift (nd_axis b' axis) in
  run! l := demixNSGT sig' in
  run! arr := load l in
  run! row0 := mlift (nd_row arr 0) in
  assign_row res axis row0.

(** [result += m] through a reference. *)
Definition add_in_place (r : ref) (m : ndarray) : M unit :=
  match r with
  | Whole l =>
      run! a := load l in
      run! s := mlift (nd_zip C128.add a m) in
      store l s
  | Row l i =>
      run! a := load l in
      run! v := mlift (nd_row a i) in
      run! s := mlift (nd_zip C128.add v m) in
      store l (nd_set_row a i (data s))
  end.

(** The [else] branch of [clean]: one pass over a two-dimensional [B]; the
    local [result] is the view [demixNSGT(B)[0]]. *)
Definition clean_flat (B : nat) : M ref :=
  run! b := load B in
  run! n := mlift (shape_first b) in
  run! _ := on_globals (fun g => (Ok tt, setMagnetometers n g)) in
  run! sig := mlift (nd_matrix b) in
  run! _ := on_globals (clusterNSGT E sig) in
  run! b' := load B in
  run! sig' := mlift (nd_matrix b') in
  run! l := demixNSGT sig' in
  run! arr := load l in
  run! _ := mlift (nd_row arr 0) in
  mret (Row l 0).

(** The [if(triaxial)] branch: a new array of zeros, filled axis by axis. *)
Definition clean_triaxial (B : nat) : M ref :=
  run! b := load B in
  run! n := mlift (shape_last b) in
  run! res := alloc (NdArray [3; n] (replicate (3 * n) C128.c0)) in
  run! _ := clean_axis B res 0 in
  run! _ := clean_axis B res 1 in
  run! _ := clean_axis B res 2 in
  mret (Whole res).

(** The body of the first [if(detrend)]: the trend and [B - trend] are new
    arrays, and the local name [B] refers to the second from then on. *)
Definition subtract_trend (B0 : nat) (size : nat) : M (nat * option nat) :=
  run! b0 := load B0 in
  run! t := mlift (uniform_filter1d E b0 size) in
  run! trend := alloc t in
  run! d := mlift (nd_zip C128.sub b0 t) in
  run! B := alloc d in
  mret (B, Some trend).

(** The first [if(detrend)]: the array [B] names afterwards, and the trend
    if there is one. *)
Definition remove_trend (B0 : nat) : M (nat * option nat) :=
  fun w =>
    (if detrend (glob w) then subtract_trend B0 (uf (glob w)) else mret (B0, None)) w.

(** The second [if(detrend)]: [result += np.mean(trend, axis=0)].  No
    statement of the module assigns [detrend], so the test has the outcome
    of the first one, which is read off the trend it left. *)
Definition restore_trend (res : ref) (trend : option nat) : M ref :=
  match trend with
  | Some tr =>
      run! t := load tr in
      run! m := mlift (nd_mean0 t) in
      run! _ := add_in_place res m in
      mret res
  | None => mret res
  end.

(** [clean(B, triaxial)]; [B0] is the caller's array. *)
Definition clean (B0 : nat) (triaxial : bool) : M ref :=
  run! d := remove_trend B0 in
  run! res := (if triaxial then clean_triaxial d.1 else clean_flat d.1) in
  restore_trend res d.2.

End Driver.

(** ** Collaborators for the examples

    Small stand-ins for the other packages, used to run the embedding on
    concrete inputs: a transform with a single band that gives each sample
    equal real and imaginary parts, its inverse, a clusterer that gives
    every point the same label, a filter that returns zeros, a host of
    four CPUs, constant libm values ([cos15] is the cosine of 15 degrees)
    and, for [hypot], the root of the sum of the squares, which is exact on
    the numbers of the examples. *)

Definition cos15 : float := 0x1.ee8dd4748bf15p-1%float.

Definition one_band_forward (sig : matrix) : list (list cvec) :=
  map (fun r : cvec => [map (fun z => Cx (re z) (re z)) r]) (rows sig).

Definition one_band_backward (length : nat) (c : list (list cvec)) : list cvec :=
  map (fun sb : list cvec => resize length C128.c0 (concat sb)) c.

Definition stub_externals (label : Z)
    (solver : matrix -> cvec -> list float -> option cvec -> outcome solved)
    : externals :=
  {| np_cos := fun _ => cos15;
     np_sin := fun _ => F64.f0;
     np_arccos := fun _ => F64.f1;
     np_arctan2 := fun _ _ => F64.f0;
     np_hypot := fun x y => PrimFloat.sqrt (x * x + y * y)%float;
     np_round3 := fun x => x;
     nsgt_forward := fun _ _ _ _ _ sig => Ok (one_band_forward sig);
     nsgt_backward := fun _ _ _ _ length c => Ok (one_band_backward length c);
     hdbscan_fit_predict := fun X => Ok (map (fun _ => label) X);
     cvx_solve := solver;
     uniform_filter1d := fun b _ =>
       Ok (NdArray (shape b) (map (fun _ => C128.c0) (data b)));
     cpu_count := 4 |}.

(** A solver whose every call raises. *)
Definition failing_solver : matrix -> cvec -> list float -> option cvec -> outcome solved :=
  fun _ _ _ _ => Raise SolverError.

(** A solver that, whatever the weights, returns the same inaccurate
    solution. *)
Definition stuck_solver (x : cvec)
    : matrix -> cvec -> list float -> option cvec -> outcome solved :=
  fun _ _ _ _ => Ok (Solved "optimal_inaccurate" (Some x)).

(** A solver that returns [x] and reports it optimal. *)
Definition exact_solver (x : cvec)
    : matrix -> cvec -> list float -> option cvec -> outcome solved :=
  fun _ _ _ _ => Ok (Solved "optimal" (Some x)).

(** The globals with another boom setting. *)
Definition with_boom (g : globals) (b : option Z) : globals :=
  {| uf := uf g; detrend := detrend g; sigma := sigma g; lambda_ := lambda_ g;
     sspTol := sspTol g; bpo := bpo g; fs := fs g; weight := weight g;
     boom := b; cs_iters := cs_iters g; magnetometers := magnetometers g;
     result := result g; clusterCentroids := clusterCentroids g |}.

(** The globals with detrending switched on or off. *)
Definition with_detrend (g : globals) (b : bool) : globals :=
  {| uf := uf g; detrend := b; sigma := sigma g; lambda_ := lambda_ g;
     sspTol := sspTol g; bpo := bpo g; fs := fs g; weight := weight g;
     boom := boom g; cs_iters := cs_iters g; magnetometers := magnetometers g;
     result := result g; clusterCentroids := clusterCentroids g |}.

(** A mixing matrix of three sensors and two sources. *)
Definition example_A : matrix :=
  Mat 3 2 [[C128.c1; C128.c1]; [C128.c1; C128.c0]; [C128.c1; C128.c0]].

(** A recording of two sensors, three axes and two samples: a signal on
    axis 0 only. *)
Definition example_B : ndarray :=
  NdArray [2; 3; 2]
    (map C128.of_real
       [300; 300; 0; 0; 0; 0;
        400; 400; 0; 0; 0; 0]%float).

(** The world of a caller that holds [example_B] at address 0. *)
Definition example_world : world := World initial_globals [example_B].

(** The collaborators of the examples: every point in cluster 0, every solve
    raising. *)
Definition example_externals : externals := stub_externals 0 failing_solver.

(** The world of the axis loop of [clean] on [example_B]: the array of zeros
    for the result is at address 1. *)
Definition example_axis_world : world :=
  World initial_globals [example_B; NdArray [3; 2] (replicate 6 C128.c0)].

(** A recording of two sensors and two samples on a single axis, and the
    world of a caller that holds it at address 0. *)
Definition example_B_flat : ndarray :=
  NdArray [2; 2] (map C128.of_real [300; 300; 400; 400]%float).

Definition example_world_flat : world := World initial_globals [example_B_flat].

(** A recording of two sensors, three axes and two samples with the same
    signal on every axis, and the world of a caller that holds it. *)
Definition example_B_full : ndarray :=
  NdArray [2; 3; 2]
    (map C128.of_real
       [300; 300; 300; 300; 300; 300;
        400; 400; 400; 400; 400; 400]%float).

Definition example_world_full : world := World initial_globals [example_B_full].

(** ** Predicates used in the statements *)

(** The dictionary starts with the ambient entry. *)
Definition ambient_first (n : nat) (d : odict) : Prop :=
  exists rest, d = (0, np_ones n) :: rest.

(** The order of two positive floats of one sign: by exponent, then by
    mantissa. *)
Definition lex_lt (e1 : Z) (m1 : positive) (e2 : Z) (m2 : positive) : Prop :=
  (e1 < e2)%Z \/ (e1 = e2 /\ (m1 < m2)%positive).

(** No entry of [v] is below [m]. *)
Definition none_below (v : list float) (m : float) : Prop :=
  forall j x, v !! j = Some x -> PrimFloat.ltb x m = false.

(** [v] is an entry of [data], and no entry of [data] has a smaller
    modulus. *)
Definition smallest_modulus (E : externals) (data : cvec) (v : complex) : Prop :=
  (exists k, data !! k = Some v) /\
  forall j b, data !! j = Some b -> PrimFloat.ltb (c_abs E b) (c_abs E v) = false.

(** The configured boom index, when there is one, is an index of [data]. *)
Definition boom_in_range (g : globals) (data : cvec) : Prop :=
  match boom g with
  | Some i => is_Some (py_index data i)
  | None => True
  end.

(** [triple P c Q R]: from a world in [P], the computation [c] ends in [Q]
    when it returns and in [R] when it raises. *)
Definition triple {A} (P : world -> Prop) (c : M A)
    (Q : A -> world -> Prop) (R : world -> Prop) : Prop :=
  forall w, P w ->
    match c w with
    | (Ok a, w') => Q a w'
    | (Raise _, w') => R w'
    end.

(** The arrays of [h0] are still where they were, with their contents. *)
Definition heap_kept (h0 : list ndarray) (w : world) : Prop :=
  take (length h0) (heap w) = h0.

(** A reference that points outside [h0]. *)
Definition fresh_ref (h0 : list ndarray) (r : ref) : Prop :=
  match r with Whole l | Row l _ => length h0 <= l end.

(** The world [w] with the dictionary [d] in place of its own. *)
Definition with_dictionary (w : world) (d : odict) : world :=
  World (with_centroids (glob w) d) (heap w).

(** The rows of a matrix agree with its shape. *)
Definition wf_matrix (m : matrix) : Prop :=
  length (rows m) = nrows m /\ Forall (fun r => length r = ncols m) (rows m).

(** The boom index, when one is set, is an index into [ns] sensors. *)
Definition boom_ok (ns : nat) (g : globals) : Prop :=
  match boom g with
  | Some i => (- Z.of_nat ns <= i < Z.of_nat ns)%Z
  | None => True
  end.

(** The loop state once [x] holds a value of [n] entries. *)
Definition cs_ready (n : nat) (st : cs_state) : Prop :=
  (exists x, x_value st = Some x /\ x_length x = n) /\ length (w_param st) = n.

(** The trend, when one was taken, is an array of the shape [sh] behind
    its reference. *)
Definition trend_at (w : world) (trend : option nat) (sh : list nat) : Prop :=
  match trend with
  | Some tr => exists t, heap w !! tr = Some t /\ shape t = sh
  | None => True
  end.

(** The keys of the dictionary are 0, 1, 2, ... in this order. *)
Definition keys_contiguous (d : odict) : Prop := od_keys d = seq 0 (length d).

(** The observation [c] has as many entries as every stored centroid.
    (For an observation of another length, [np.dot] raises [ValueError] in
    [updateCentroids].) *)
Definition fits_dictionary (d : odict) (c : cvec) : Prop :=
  Forall (fun v : cvec => length v = length c) (od_values d).

(** The matrix whose single column is [c]: what [updateCentroids] is given
    for one new centroid. *)
Definition column_matrix (c : cvec) : matrix :=
  Mat (length c) 1 (map (fun z => [z]) c).

(** The test [angle < np.deg2rad(sspTol)] of [updateCentroids] for the
    stored vector [existing] and the observation [centroid]. *)
Definition within_tolerance (E : externals) (tol : float) (existing centroid : cvec) : bool :=
  PrimFloat.ltb (centroid_angle E existing centroid) (F64.deg2rad tol).

(** What the pass of [updateCentroids] over the stored clusters makes of
    the vector [ex] stored under key [k], for the observation [c]: within
    tolerance and not the ambient entry, it moves toward [c] by the
    learning rate. *)
Definition moved_centroid (E : externals) (tol lr : float) (c : cvec)
    (k : nat) (ex : cvec) : cvec :=
  if within_tolerance E tol ex c && negb (Nat.eqb k 0) then blend lr ex c else ex.

(** Collaborators whose arc cosine is the constant [a]: with [a] below the
    tolerance, every observation is within tolerance of every stored
    centroid. *)
Definition with_arccos (E : externals) (a : float) : externals :=
  {| np_cos := np_cos E; np_sin := np_sin E; np_arccos := fun _ => a;
     np_arctan2 := np_arctan2 E; np_hypot := np_hypot E; np_round3 := np_round3 E;
     nsgt_forward := nsgt_forward E; nsgt_backward := nsgt_backward E;
     hdbscan_fit_predict := hdbscan_fit_predict E; cvx_solve := cvx_solve E;
     uniform_filter1d := uniform_filter1d E; cpu_count := cpu_count E |}.

(** The globals of the loaded module with a second centroid, along the
    first sensor, in the dictionary. *)
Definition two_centroids : globals :=
  with_centroids initial_globals
    [(0, np_ones 3); (1, [C128.c1; C128.c0; C128.c0])].

(** The columns of a matrix given by its rows, in order. *)
Definition columns (rs : list cvec) (n : nat) : list cvec :=
  map (column rs) (seq 0 n).

(** The test of [filterMagnitude] on one bin: the norm over the sensors of
    the moduli exceeds [lambda_ * sigma]. *)
Definition filterMagnitude_test (E : externals) (g : globals) (col : cvec) : bool :=
  PrimFloat.ltb (lambda_ g * sigma g)%float (F64.norm (np_abs E col)).

(** The globals with another number of solver iterations. *)
Definition with_cs_iters (g : globals) (k : Z) : globals :=
  {| uf := uf g; detrend := detrend g; sigma := sigma g; lambda_ := lambda_ g;
     sspTol := sspTol g; bpo := bpo g; fs := fs g; weight := weight g;
     boom := boom g; cs_iters := k; magnetometers := magnetometers g;
     result := result g; clusterCentroids := clusterCentroids g |}.

(** Weights that differ from the initial weights [1/n] at most in entry 0,
    and whose entry 0, when it differs, is not below 0.01 and not above
    100. *)
Definition ambient_weight_only (n : nat) (w : list float) : Prop :=
  exists w0,
    w = w0 :: replicate (n - 1) (1 / float_of_nat n)%float /\
    (w0 = (1 / float_of_nat n)%float \/
     (PrimFloat.ltb w0 0.01 = false /\ PrimFloat.ltb 100 w0 = false)).

(** The parameters a user sets on the module have in [g'] the values they
    have in [g]. *)
Definition settings_kept (g g' : globals) : Prop :=
  uf g' = uf g /\ detrend g' = detrend g /\ sigma g' = sigma g /\
  lambda_ g' = lambda_ g /\ sspTol g' = sspTol g /\ bpo g' = bpo g /\
  fs g' = fs g /\ weight g' = weight g /\ boom g' = boom g /\
  cs_iters g' = cs_iters g.

(** The global [result] refers to the array at address [l]. *)
Definition result_at (l : nat) (w : world) : Prop :=
  result (glob w) = Some l /\ l < length (heap w).


(** [A] has the shape [(magnetometers, n_clusters)] of the parameter that
    [weightedReconstruction] passes to [processData]. *)
Definition mixing_shape (g : globals) (A : matrix) (n_clusters : nat) : Prop :=
  nrows A = magnetometers g /\ ncols A = n_clusters.

(** No entry has a NaN or an infinite part. *)
Definition all_finite (rs : list cvec) : Prop :=
  Forall (fun r => forallb C128.is_finite r = true) rs.

(** The matrix of coefficients that [clusterNSGT] and [demixNSGT] both
    compute from [sig]: the transform with the subbands of each sensor side
    by side. *)
Definition nsgt_bins (E : externals) (g : globals) (sig : matrix) : outcome matrix :=
  try! B0 := forward E g sig in stack_subbands g B0.

(** The value [weightedReconstruction] gives the parameter [A]: the
    centroids of the dictionary, one column for each. *)
Definition centroid_matrix (g : globals) : matrix :=
  let centroids := od_values (clusterCentroids g) in
  transpose (Mat (length (clusterCentroids g))
                 (length (default [] (head centroids))) centroids).

(** A solve of the bin [data] against [A] that returns leaves a value of
    the shape of [x] (the shape of the weights). *)
Definition solve_leaves_a_value (E : externals) (A : matrix) (data : cvec) : Prop :=
  forall wv xv status v,
    cvx_solve E A data wv xv = Ok (Solved status v) ->
    exists x, v = Some x /\ length x = length wv.

(** The coefficients [demixNSGT(sig)] hands to the inverse transform. *)
Definition demix_coefficients (E : externals) (g : globals) (sig : matrix)
    : outcome (list (list cvec)) :=
  try! B := forward E g sig in
  match B with
  | [] => Raise IndexError
  | B0 :: _ =>
      let shapes := map (fun sb : cvec => length sb) B0 in
      try! B_nsgt := stack_subbands g B in
      try! B_reconstructed := weightedReconstruction E g B_nsgt in
      Ok (map (split_subbands shapes) (iter_rows B_reconstructed))
  end.

(** For the coefficients [c], the inverse transform returns one signal of
    [len] samples for each channel. *)
Definition inverse_returns (E : externals) (g : globals) (len : nat)
    (c : list (list cvec)) : Prop :=
  exists s, backward E g len c = Ok s /\
    length s = length c /\ Forall (fun x : cvec => length x = len) s.

(** One pass over [sig] meets sound data, and the other packages do their
    part on them: [clusterNSGT(sig)] returns; the centroids it leaves in
    the dictionary are finite; the transform of [sig] has at least one
    coefficient for each sensor, all of them finite; a solve of one of its
    bins that returns leaves a value in [x]; and the inverse transform
    returns one signal of the length of [sig] for each channel of the
    demixed coefficients. *)
Definition pass_ok (E : externals) (g : globals) (sig : matrix) : Prop :=
  (clusterNSGT E sig g).1 = Ok tt /\
  all_finite (od_values (clusterCentroids (clusterNSGT E sig g).2)) /\
  (forall B, nsgt_bins E g sig = Ok B ->
     0 < ncols B /\ all_finite (rows B) /\
     forall j, j < ncols B ->
       solve_leaves_a_value E (centroid_matrix (clusterNSGT E sig g).2)
                              (column (rows B) j)) /\
  (forall c, demix_coefficients E (clusterNSGT E sig g).2 sig = Ok c ->
     inverse_returns E (clusterNSGT E sig g).2 (ncols sig) c).

(** The array [clean] works on after its first [if(detrend)]: [B], or
    [B - trend]. *)
Definition detrended (E : externals) (g : globals) (b : ndarray) : outcome ndarray :=
  if detrend g then try! t := uniform_filter1d E b (uf g) in nd_zip C128.sub b t
  else Ok b.

(** The signals [clean] passes to [clusterNSGT] and [demixNSGT]: the three
    axes of [B], or [B] itself. *)
Definition passes (triaxial : bool) (b : ndarray) : list (outcome matrix) :=
  if triaxial then [nd_axis b 0; nd_axis b 1; nd_axis b 2] else [nd_matrix b].

(** All globals except [result] have in [g'] the values they have in [g]. *)
Definition same_but_result (g g' : globals) : Prop :=
  with_result g' None = with_result g None.

(** What holds between the axes of [clean(B, triaxial=True)], started with
    the globals [g0]: [B] still refers to the array [b], [res] to an array
    of shape (3, n), and the settings are those of [g0]. *)
Definition axis_inv (g0 : globals) (B res : nat) (b : ndarray) (n : nat) (w : world)
    : Prop :=
  heap w !! B = Some b /\
  (exists a, heap w !! res = Some a /\ shape a = [3; n]) /\
  settings_kept g0 (glob w).

(** * Properties *)

(** ** Properties of the centroid tracker *)

Section TrackerFacts.

Variable E : externals.

Lemma ambient_first_get n d : ambient_first n d -> od_get d 0 = Some (np_ones n).
Proof. intros [rest ->]. reflexivity. Qed.

Lemma ambient_first_length n d : ambient_first n d -> 0 < length d.
Proof. intros [rest ->]. simpl. lia. Qed.

Lemma od_set_keeps_ambient n d k v :
  k <> 0 -> ambient_first n d -> ambient_first n (od_set d k v).
Proof.
  intros Hk [rest ->]. simpl.
  destruct k as [|k]; [congruence|]. simpl. eexists. reflexivity.
Qed.

Lemma match_cluster_keeps_ambient n tol lr c st cluster :
  ambient_first n st.1 ->
  ambient_first n (match_cluster E tol lr c st cluster).1.
Proof.
  intros H. unfold match_cluster.
  destruct (od_get st.1 cluster) as [ex|]; [|exact H].
  destruct (PrimFloat.ltb _ _); [|exact H]. simpl.
  destruct (Nat.eqb cluster 0) eqn:Hc; simpl; [exact H|].
  apply od_set_keeps_ambient; [|exact H].
  intros ->. discriminate.
Qed.

Lemma scan_keeps_ambient n tol lr c keys st :
  ambient_first n st.1 ->
  ambient_first n (fold_left (match_cluster E tol lr c) keys st).1.
Proof.
  revert st. induction keys as [|k keys IH]; intros st H; simpl; [exact H|].
  apply IH, match_cluster_keeps_ambient, H.
Qed.

Lemma absorb_keeps_ambient n tol lr d c :
  ambient_first n d -> ambient_first n (absorb E tol lr d c).
Proof.
  intros H. unfold absorb.
  pose proof (scan_keeps_ambient n tol lr c (od_keys d) (d, true) H) as H'.
  destruct (fold_left _ _ _) as [d' newC]; simpl in *.
  destruct newC; [|exact H'].
  apply od_set_keeps_ambient; [|exact H'].
  apply ambient_first_length in H'. lia.
Qed.

Lemma absorb_all_keeps_ambient n tol lr cs d :
  ambient_first n d -> ambient_first n (fold_left (absorb E tol lr) cs d).
Proof.
  revert d. induction cs as [|c cs IH]; intros d H; simpl; [exact H|].
  apply IH, absorb_keeps_ambient, H.
Qed.

Lemma updateCentroids_keeps_ambient n nc lr g :
  ambient_first n (clusterCentroids g) ->
  ambient_first n (clusterCentroids (updateCentroids E nc lr g).1).
Proof.
  intros H. unfold updateCentroids. simpl.
  destruct (Nat.ltb 0 _); [|exact H]. simpl.
  apply absorb_all_keeps_ambient, H.
Qed.

Lemma run_updates_keeps_ambient n calls g :
  ambient_first n (clusterCentroids g) ->
  ambient_first n (clusterCentroids (run_updates E calls g)).
Proof.
  revert g. induction calls as [|c calls IH]; intros g H; simpl; [exact H|].
  apply IH, updateCentroids_keeps_ambient, H.
Qed.

Lemma setMagnetometers_ambient n g :
  ambient_first n (clusterCentroids (setMagnetometers n g)).
Proof. exists []. reflexivity. Qed.

(** C1.  After [setMagnetometers n], whatever [updateCentroids] calls
    follow and however many of them have run, the centroid stored under key
    0 is the all-ones vector of length [n], and the array every further
    call returns (the rows of the mixing matrix) starts with it. *)
Theorem ambient_centroid_is_never_changed :
  forall (n : nat) (g : globals) (calls : list (matrix * float)) (k : nat),
    let g' := run_updates E (take k calls) (setMagnetometers n g) in
    od_get (clusterCentroids g') 0 = Some (np_ones n) /\
    forall nc lr, (updateCentroids E nc lr g').2 !! 0 = Some (np_ones n).
Proof.
  intros n g calls k g'.
  assert (H : ambient_first n (clusterCentroids g')).
  { apply run_updates_keeps_ambient, setMagnetometers_ambient. }
  split; [apply ambient_first_get, H|].
  intros nc lr.
  pose proof (updateCentroids_keeps_ambient n nc lr g' H) as [rest Hr].
  unfold updateCentroids in *. simpl in *. rewrite Hr. reflexivity.
Qed.

(** C9.  An empty set of new centroids leaves the globals, and with them the
    dictionary, as they were; the call returns the centroids it found. *)
Theorem updateCentroids_empty_is_identity :
  forall (nc : matrix) (lr : float) (g : globals),
    size nc = 0 ->
    updateCentroids E nc lr g = (g, od_values (clusterCentroids g)).
Proof.
  intros nc lr g H. unfold updateCentroids.
  assert (Hz : Nat.ltb 0 (size (transpose nc)) = false).
  { apply Nat.ltb_ge. unfold size in *. simpl. lia. }
  rewrite Hz. reflexivity.
Qed.

End TrackerFacts.

(** ** The order of float64

    The comparisons of [float] are specified by [SFcompare] on the
    sign-mantissa-exponent form; the scan of [np_argmin] needs that [<] is
    transitive and total away from NaN. *)

Module FloatOrder.

Lemma lex_cmp_lt e1 m1 e2 m2 :
  match Z.compare e1 e2 with Lt => Lt | Gt => Gt | Eq => Pos.compare_cont Eq m1 m2 end = Lt
  <-> lex_lt e1 m1 e2 m2.
Proof.
  unfold lex_lt. rewrite Pos.compare_cont_spec. simpl.
  destruct (Z.compare_spec e1 e2); destruct (Pos.compare_spec m1 m2); split; intros; try lia; try discriminate; try reflexivity.
Qed.

Lemma lex_cmp_gt e1 m1 e2 m2 :
  match Z.compare e1 e2 with Lt => Lt | Gt => Gt | Eq => Pos.compare_cont Eq m1 m2 end = Gt
  <-> lex_lt e2 m2 e1 m1.
Proof.
  unfold lex_lt. rewrite Pos.compare_cont_spec. simpl.
  destruct (Z.compare_spec e1 e2); destruct (Pos.compare_spec m1 m2); split; intros; try lia; try discriminate; try reflexivity.
Qed.

Lemma lex_cmp_opp_lt e1 m1 e2 m2 :
  match Z.compare e1 e2 with Lt => Gt | Gt => Lt | Eq => CompOpp (Pos.compare_cont Eq m1 m2) end = Lt
  <-> lex_lt e2 m2 e1 m1.
Proof.
  unfold lex_lt. rewrite Pos.compare_cont_spec. simpl.
  destruct (Z.compare_spec e1 e2); destruct (Pos.compare_spec m1 m2); simpl; split; intros; try lia; try discriminate; try reflexivity.
Qed.

Lemma lex_lt_trans e1 m1 e2 m2 e3 m3 :
  lex_lt e1 m1 e2 m2 -> lex_lt e2 m2 e3 m3 -> lex_lt e1 m1 e3 m3.
Proof. unfold lex_lt. lia. Qed.

Lemma SFcompare_lt_trans a b c :
  SFcompare a b = Some Lt -> SFcompare b c = Some Lt -> SFcompare a c = Some Lt.
Proof.
  destruct a as [sa|sa| |sa ma ea], b as [sb|sb| |sb mb eb], c as [sc|sc| |sc mc ec]; simpl;
    try destruct sa; try destruct sb; try destruct sc; simpl; intros H1 H2;
    try discriminate; try reflexivity.
  - injection H1 as H1. injection H2 as H2. f_equal.
    apply lex_cmp_opp_lt. apply lex_cmp_opp_lt in H1, H2. eapply lex_lt_trans; eassumption.
  - injection H1 as H1. injection H2 as H2. f_equal.
    apply lex_cmp_lt. apply lex_cmp_lt in H1, H2. eapply lex_lt_trans; eassumption.
Qed.

Lemma SFcompare_antisym a b c :
  SFcompare a b = Some c -> SFcompare b a = Some (CompOpp c).
Proof.
  destruct a as [sa|sa| |sa ma ea], b as [sb|sb| |sb mb eb]; simpl;
    try destruct sa; try destruct sb; simpl; intros H; inversion H; subst; clear H;
    try reflexivity.
  - rewrite (Z.compare_antisym ea eb). destruct (Z.compare ea eb) eqn:Hc; simpl; try reflexivity.
    rewrite Pos.compare_cont_antisym. simpl. rewrite CompOpp_involutive. reflexivity.
  - rewrite (Z.compare_antisym ea eb). destruct (Z.compare ea eb) eqn:Hc; simpl; try reflexivity.
    rewrite Pos.compare_cont_antisym. simpl. reflexivity.
Qed.

Lemma SFcompare_some a b :
  a <> S754_nan -> b <> S754_nan -> exists c, SFcompare a b = Some c.
Proof.
  destruct a, b; simpl; intros H1 H2; try congruence; eexists; reflexivity.
Qed.

(** Facts on the primitive comparisons. *)
Lemma is_nan_SF x : PrimFloat.is_nan x = true <-> Prim2SF x = S754_nan.
Proof.
  unfold PrimFloat.is_nan. rewrite FloatAxioms.eqb_spec. unfold SFeqb.
  destruct (Prim2SF x) as [s|s| |s m e]; simpl; try destruct s; simpl; split; intros H; try discriminate; try reflexivity.
  - rewrite Z.compare_refl, Pos.compare_cont_refl in H. discriminate.
  - rewrite Z.compare_refl, Pos.compare_cont_refl in H. discriminate.
Qed.

Lemma ltb_nan_r x y : PrimFloat.is_nan x = true -> PrimFloat.ltb y x = false.
Proof.
  intros H. apply is_nan_SF in H. rewrite FloatAxioms.ltb_spec, H. unfold SFltb.
  destruct (Prim2SF y); reflexivity.
Qed.

Lemma leb_not_ltb a b : PrimFloat.leb a b = true -> PrimFloat.ltb b a = false.
Proof.
  rewrite FloatAxioms.leb_spec, FloatAxioms.ltb_spec. unfold SFleb, SFltb.
  destruct (SFcompare (Prim2SF a) (Prim2SF b)) as [c|] eqn:Hc; [|discriminate].
  apply SFcompare_antisym in Hc. rewrite Hc. destruct c; simpl; congruence.
Qed.

Lemma not_leb_ltb a b :
  PrimFloat.is_nan a = false -> PrimFloat.is_nan b = false ->
  PrimFloat.leb a b = false -> PrimFloat.ltb b a = true.
Proof.
  intros Ha Hb. rewrite FloatAxioms.leb_spec, FloatAxioms.ltb_spec. unfold SFleb, SFltb.
  assert (Ha' : Prim2SF a <> S754_nan).
  { intros H. apply is_nan_SF in H. congruence. }
  assert (Hb' : Prim2SF b <> S754_nan).
  { intros H. apply is_nan_SF in H. congruence. }
  destruct (SFcompare_some _ _ Ha' Hb') as [c Hc]. rewrite Hc.
  apply SFcompare_antisym in Hc. rewrite Hc. destruct c; simpl; congruence.
Qed.

Lemma ltb_trans a b c :
  PrimFloat.ltb a b = true -> PrimFloat.ltb b c = true -> PrimFloat.ltb a c = true.
Proof.
  rewrite !FloatAxioms.ltb_spec. unfold SFltb.
  destruct (SFcompare (Prim2SF a) (Prim2SF b)) as [[]|] eqn:H1; try discriminate.
  destruct (SFcompare (Prim2SF b) (Prim2SF c)) as [[]|] eqn:H2; try discriminate.
  rewrite (SFcompare_lt_trans _ _ _ H1 H2). reflexivity.
Qed.

Lemma SFcompare_lt_eq_trans a b c :
  SFcompare a b = Some Lt -> SFcompare b c = Some Eq -> SFcompare a c = Some Lt.
Proof.
  destruct a as [sa|sa| |sa ma ea], b as [sb|sb| |sb mb eb], c as [sc|sc| |sc mc ec]; simpl;
    try destruct sa; try destruct sb; try destruct sc; simpl; intros H1 H2;
    try discriminate; try reflexivity.
  - injection H1 as H1. injection H2 as H2. f_equal.
    destruct (Z.compare_spec eb ec); try discriminate. subst.
    rewrite Pos.compare_cont_spec in H2. simpl in H2.
    destruct (Pos.compare_spec mb mc); try discriminate. subst. exact H1.
  - injection H1 as H1. injection H2 as H2. f_equal.
    destruct (Z.compare_spec eb ec); try discriminate. subst.
    rewrite Pos.compare_cont_spec in H2. simpl in H2.
    destruct (Pos.compare_spec mb mc); try discriminate. subst. exact H1.
Qed.

Lemma ltb_leb_trans a b c :
  PrimFloat.ltb a b = true -> PrimFloat.leb b c = true -> PrimFloat.ltb a c = true.
Proof.
  rewrite !FloatAxioms.ltb_spec, FloatAxioms.leb_spec. unfold SFltb, SFleb.
  destruct (SFcompare (Prim2SF a) (Prim2SF b)) as [[]|] eqn:H1; try discriminate.
  destruct (SFcompare (Prim2SF b) (Prim2SF c)) as [[]|] eqn:H2; try discriminate; intros _ _.
  - rewrite (SFcompare_lt_eq_trans _ _ _ H1 H2). reflexivity.
  - rewrite (SFcompare_lt_trans _ _ _ H1 H2). reflexivity.
Qed.

End FloatOrder.

(** ** [np_argmin] returns a smallest entry *)

Section Argmin.

Import FloatOrder.

Lemma ltb_irrefl x : PrimFloat.ltb x x = false.
Proof.
  destruct (PrimFloat.ltb x x) eqn:H; [|reflexivity].
  rewrite FloatAxioms.ltb_spec in H. unfold SFltb in H.
  destruct (SFcompare (Prim2SF x) (Prim2SF x)) as [[]|] eqn:Hc; try discriminate.
  pose proof (SFcompare_antisym _ _ _ Hc) as Hc'. simpl in Hc'. congruence.
Qed.

Lemma argmin_from_spec (v pre : list float) (mp : float) (mi : nat) :
  pre !! mi = Some mp -> PrimFloat.is_nan mp = false -> none_below pre mp ->
  exists m, (pre ++ v) !! argmin_from v (length pre) mp mi = Some m /\
            none_below (pre ++ v) m.
Proof.
  revert pre mp mi. induction v as [|x v IH]; intros pre mp mi Hmi Hnan Hmin; simpl.
  - exists mp. rewrite app_nil_r. split; assumption.
  - destruct (PrimFloat.leb mp x) eqn:Hle.
    + destruct (IH (pre ++ [x]) mp mi) as [m [Hm Hall]].
      * apply lookup_app_l_Some, Hmi.
      * exact Hnan.
      * intros j y Hy. apply lookup_app_Some in Hy as [Hy | [_ Hy]].
        -- eapply Hmin, Hy.
        -- apply list_lookup_singleton_Some in Hy as [_ <-]. apply leb_not_ltb, Hle.
      * rewrite length_app in Hm. simpl in Hm. rewrite Nat.add_1_r in Hm.
        rewrite <- app_assoc in Hm, Hall. exists m. split; assumption.
    + destruct (PrimFloat.is_nan x) eqn:Hx.
      * exists x. split.
        -- rewrite lookup_app_r by lia. rewrite Nat.sub_diag. reflexivity.
        -- intros j y _. apply ltb_nan_r, Hx.
      * assert (Hlt : PrimFloat.ltb x mp = true) by (apply not_leb_ltb; assumption).
        destruct (IH (pre ++ [x]) x (length pre)) as [m [Hm Hall]].
        -- rewrite lookup_app_r by lia. rewrite Nat.sub_diag. reflexivity.
        -- exact Hx.
        -- intros j y Hy. apply lookup_app_Some in Hy as [Hy | [_ Hy]].
           ++ destruct (PrimFloat.ltb y x) eqn:Hyx; [|reflexivity].
              rewrite <- (Hmin j y Hy). symmetry. eapply ltb_trans; eassumption.
           ++ apply list_lookup_singleton_Some in Hy as [_ <-]. apply ltb_irrefl.
        -- rewrite length_app in Hm. simpl in Hm. rewrite Nat.add_1_r in Hm.
           rewrite <- app_assoc in Hm, Hall. exists m. split; assumption.
Qed.

Lemma np_argmin_spec (v : list float) :
  v <> [] ->
  exists k m, np_argmin v = Ok k /\ v !! k = Some m /\ none_below v m.
Proof.
  destruct v as [|x v]; [congruence|]. intros _. simpl.
  destruct (PrimFloat.is_nan x) eqn:Hx.
  - exists 0, x. repeat split. intros j y _. apply ltb_nan_r, Hx.
  - destruct (argmin_from_spec v [x] x 0) as [m [Hm Hall]].
    + reflexivity.
    + exact Hx.
    + intros j y Hy. apply list_lookup_singleton_Some in Hy as [_ <-]. apply ltb_irrefl.
    + eexists _, m. repeat split; [exact Hm | exact Hall].
Qed.

End Argmin.

(** ** Properties of the per-bin demixer *)

Section DemixerFacts.

Import FloatOrder.

Variable E : externals.

Lemma lookup_map {A B} (f : A -> B) (l : list A) (i : nat) :
  map f l !! i = f <$> (l !! i).
Proof.
  revert i. induction l as [|a l IH]; intros [|i]; simpl; try reflexivity. apply IH.
Qed.

Lemma fallback_spec (n : nat) (data : cvec) :
  0 < n -> data <> [] ->
  exists v, smallest_modulus E data v /\
    fallback E n data = Ok (Float64 (<[0 := re v]> (replicate n F64.f0))).
Proof.
  intros Hn Hd. unfold fallback.
  destruct (np_argmin_spec (np_abs E data)) as [k [m [Hk [Hm Hmin]]]].
  { destruct data; [congruence|discriminate]. }
  rewrite Hk. simpl. unfold np_abs in Hm. rewrite lookup_map in Hm.
  destruct (data !! k) as [v|] eqn:Hv; [|discriminate]. injection Hm as <-.
  exists v. split.
  - split; [eauto|]. intros j b Hb. apply (Hmin j). unfold np_abs.
    rewrite lookup_map, Hb. reflexivity.
  - destruct n; [lia|]. reflexivity.
Qed.


Section EverySolveRaises.

Variable A : matrix.
Variable data : cvec.

Hypothesis solver_raises : forall wv xv, exists e, cvx_solve E A data wv xv = Raise e.






End EverySolveRaises.

(** In a single-source bin the loop never touches the parameter of the
    objective: every solve is logged with the weights the loop started
    with. *)
Lemma ssp_loop_solves_one_problem iters A data n st st' :
  cs_loop E iters A data n true st = Ok st' ->
  w_param st' = w_param st /\
  exists k, k <= iters /\ solved_with st' = solved_with st ++ replicate k (w_param st).
Proof.
  revert st. induction iters as [|iters IH]; intros st H; simpl in H.
  - injection H as <-. split; [reflexivity|]. exists 0. split; [lia|].
    simpl. rewrite app_nil_r. reflexivity.
  - destruct (attempt E A data n st) as [[st1 brk]|e] eqn:Ha; [|discriminate].
    assert (H1 : w_param st1 = w_param st /\ solved_with st1 = solved_with st ++ [w_param st]).
    { unfold attempt in Ha.
      destruct (cvx_solve E A data (w_param st) (promote <$> x_value st)) as [[status v]|e].
      - injection Ha as <- _. split; reflexivity.
      - destruct (x_value st).
        + injection Ha as <- _. split; reflexivity.
        + destruct (fallback E n data); [|discriminate].
          injection Ha as <- _. split; reflexivity. }
    destruct H1 as [Hw Hlog]. simpl in H. destruct brk.
    + injection H as <-. split; [exact Hw|]. exists 1. split; [lia|]. exact Hlog.
    + simpl in H. apply IH in H. simpl in H. destruct H as [Hw' [k [Hk Hlog']]].
      split; [congruence|]. exists (S k). split; [lia|].
      rewrite Hlog', Hlog, Hw, <- app_assoc. reflexivity.
Qed.

(** C7 (what the code does).  For a bin classified as single-source, every
    [problem.solve] of the loop minimises the objective with the weights
    [1/n_clusters] it was built with: binding the name [w] to the
    inverse-magnitude expression changes no weight of the problem. *)
Theorem ssp_bin_is_solved_with_the_initial_weights :
  forall (g : globals) (A : matrix) (n_clusters : nat) (data : cvec) (st : cs_state),
    processData_SSP E g data = true ->
    processData_loop E g A n_clusters data = Ok st ->
    exists k, k <= Z.to_nat (cs_iters g) /\
      solved_with st =
        replicate k (replicate n_clusters (1 / float_of_nat n_clusters)%float).
Proof.
  intros g A n data st Hssp H. unfold processData_loop in H.
  destruct (negb _); [discriminate|]. destruct (negb _); [discriminate|].
  rewrite Hssp in H.
  apply ssp_loop_solves_one_problem in H. destruct H as [_ [k [Hk Hlog]]].
  exists k. split; [exact Hk|]. exact Hlog.
Qed.

(** C8 (what the code does).  With the boom magnetometer at index 0 the
    check [if boom and ...] is skipped: [processData] returns the value the
    loop left in [x], whatever its entry 0 and the boom measurement are. *)
Theorem boom_index_zero_is_never_applied :
  forall (g : globals) (A : matrix) (n_clusters : nat) (data : cvec),
    boom g = Some 0%Z ->
    processData E g A n_clusters data =
    (try! st := processData_loop E g A n_clusters data in Ok (x_value st)).
Proof.
  intros g A n data Hb. unfold processData.
  destruct (processData_loop E g A n data) as [st|e]; [|reflexivity].
  simpl. unfold boom_check. rewrite Hb. reflexivity.
Qed.

(** With any other index inside the bin, an ambient entry at least as
    large as the boom measurement is replaced by that measurement. *)
Lemma boom_check_clamps g data x x0 i bi :
  boom g = Some i -> i <> 0%Z -> x_abs E x !! 0 = Some x0 ->
  py_index data i = Some bi ->
  PrimFloat.leb (c_abs E bi) x0 = true ->
  boom_check E g data (Some x) = Ok (Some (x_set0 x bi)).
Proof.
  intros Hb Hi Hx Hbi Hle. unfold boom_check. rewrite Hb.
  destruct (Z.eqb_spec i 0); [congruence|]. rewrite Hx, Hbi, Hle. reflexivity.
Qed.

(** C6 (what the code does).  On the bin [(3-3j, 4-4j, 0)], whose real and
    imaginary parts point in opposite directions, the similarity of
    [processData] is -1 and that of [filterSSP] is 1: for every threshold
    above -1 and at most 1 the first test says no and the second yes. *)
Theorem ssp_tests_disagree_on_opposite_parts :
  forall (g : globals),
    PrimFloat.leb (ssp_threshold E g) (-1)%float = false ->
    PrimFloat.leb (ssp_threshold E g) 1%float = true ->
    let b := [Cx 3 (-3); Cx 4 (-4); Cx 0 0] in
    processData_SSP E g b = false /\ filterSSP_test E g b = true.
Proof.
  intros g H1 H2 b. unfold processData_SSP, filterSSP_test.
  replace (processData_cos_sim b) with (-1)%float by (vm_compute; reflexivity).
  replace (filterSSP_cos_sim b) with 1%float by (vm_compute; reflexivity).
  split; assumption.
Qed.

End DemixerFacts.

(** C5 (what the code does).  On the purely real bin [(1, 2, 2)] the
    imaginary part has norm zero.  [filterSSP] divides by the clamped norm
    and gets the similarity 0; [processData] divides by the norm itself and
    gets NaN. *)
Theorem processData_similarity_is_nan_on_real_bin :
  let b := [Cx 1 0; Cx 2 0; Cx 2 0] in
  PrimFloat.is_nan (processData_cos_sim b) = true /\
  filterSSP_cos_sim b = 0%float.
Proof. split; vm_compute; reflexivity. Qed.

(** ** The properties on concrete inputs *)

Lemma updateCentroids_empty_example :
  updateCentroids (stub_externals 0 failing_solver) (Mat 3 0 [[]; []; []]) 0.1%float
    initial_globals
  = (initial_globals, od_values (clusterCentroids initial_globals)).
Proof.
  apply (updateCentroids_empty_is_identity (stub_externals 0 failing_solver)).
  reflexivity.
Defined.


(** The value of the fallback on that bin: the entry [1] of modulus 1, a
    real number. *)
Example processData_fallback_value :
  processData example_externals initial_globals example_A 2 [Cx 3 4; Cx 1 0; Cx 0 2]
  = Ok (Some (Float64 [1; 0]%float)).
Proof. vm_compute. reflexivity. Qed.


Lemma ssp_bin_weights_example :
  exists st,
    processData_loop (stub_externals 0 (stuck_solver [Cx 5 0; C128.c0]))
      initial_globals example_A 2 [Cx 3 3; Cx 4 4; Cx 0 0] = Ok st /\
    exists k, k <= Z.to_nat (cs_iters initial_globals) /\
      solved_with st = replicate k (replicate 2 (1 / float_of_nat 2)%float).
Proof.
  eexists. split.
  - vm_compute. reflexivity.
  - eapply (ssp_bin_is_solved_with_the_initial_weights
              (stub_externals 0 (stuck_solver [Cx 5 0; C128.c0]))
              initial_globals example_A 2 [Cx 3 3; Cx 4 4; Cx 0 0]).
    + vm_compute. reflexivity.
    + vm_compute. reflexivity.
Defined.

(** On that bin the five solves all use the weights (0.5, 0.5), although
    the solution in [x] after the first of them is (5, 0), whose inverse
    magnitudes differ from each other. *)
Example ssp_bin_five_solves :
  (try! st := processData_loop (stub_externals 0 (stuck_solver [Cx 5 0; C128.c0]))
                initial_globals example_A 2 [Cx 3 3; Cx 4 4; Cx 0 0] in
   Ok (solved_with st, w_is_param st))
  = Ok (replicate 5 [0.5; 0.5]%float, false) /\
  inv_pos_value example_externals (Complex128 [Cx 5 0; C128.c0])
  = [(1 / 5.01)%float; (1 / 0.01)%float].
Proof. split; vm_compute; reflexivity. Qed.

Lemma boom_zero_example :
  processData (stub_externals 0 (exact_solver [Cx 10 0; C128.c0]))
    (with_boom initial_globals (Some 0%Z)) example_A 2 [Cx 1 0; Cx 2 0; Cx 2 0]
  = (try! st := processData_loop (stub_externals 0 (exact_solver [Cx 10 0; C128.c0]))
                  (with_boom initial_globals (Some 0%Z)) example_A 2
                  [Cx 1 0; Cx 2 0; Cx 2 0] in
     Ok (x_value st)).
Proof.
  apply (boom_index_zero_is_never_applied
           (stub_externals 0 (exact_solver [Cx 10 0; C128.c0]))).
  reflexivity.
Defined.

(** The ambient estimate 10 exceeds the measurement 1 of sensor 0: with
    the boom at index 0 it is returned as it is, with the boom at index 1
    (measurement 2) it is clamped. *)
Example boom_zero_versus_one :
  processData (stub_externals 0 (exact_solver [Cx 10 0; C128.c0]))
    (with_boom initial_globals (Some 0%Z)) example_A 2 [Cx 1 0; Cx 2 0; Cx 2 0]
  = Ok (Some (Complex128 [Cx 10 0; C128.c0])) /\
  processData (stub_externals 0 (exact_solver [Cx 10 0; C128.c0]))
    (with_boom initial_globals (Some 1%Z)) example_A 2 [Cx 1 0; Cx 2 0; Cx 2 0]
  = Ok (Some (Complex128 [Cx 2 0; C128.c0])).
Proof. split; vm_compute; reflexivity. Qed.

Lemma ssp_tests_disagree_example :
  let b := [Cx 3 (-3); Cx 4 (-4); Cx 0 0] in
  processData_SSP (stub_externals 0 failing_solver) initial_globals b = false /\
  filterSSP_test (stub_externals 0 failing_solver) initial_globals b = true.
Proof.
  apply (ssp_tests_disagree_on_opposite_parts (stub_externals 0 failing_solver)
           initial_globals).
  - vm_compute. reflexivity.
  - vm_compute. reflexivity.
Defined.

(** ** A program logic for computations on the world *)

Lemma triple_bind {A B} (P : world -> Prop) (c : M A) (k : A -> M B)
    (Q : A -> world -> Prop) (Q' : B -> world -> Prop) (R : world -> Prop) :
  triple P c Q R -> (forall a, triple (Q a) (k a) Q' R) ->
  triple P (mbind c k) Q' R.
Proof.
  intros Hc Hk w Hw. unfold mbind. specialize (Hc w Hw).
  destruct (c w) as [[a|e] w']; [|exact Hc]. apply (Hk a w' Hc).
Qed.

Lemma triple_weaken {A} (P P' : world -> Prop) (c : M A)
    (Q Q' : A -> world -> Prop) (R : world -> Prop) :
  triple P c Q R -> (forall w, P' w -> P w) -> (forall a w, Q a w -> Q' a w) ->
  triple P' c Q' R.
Proof.
  intros Hc HP HQ w Hw. specialize (Hc w (HP w Hw)).
  destruct (c w) as [[a|e] w']; [apply HQ, Hc|exact Hc].
Qed.

Lemma triple_ret {A} (a : A) (Q : A -> world -> Prop) (R : world -> Prop) :
  triple (Q a) (mret a) Q R.
Proof. intros w Hw. exact Hw. Qed.

Lemma triple_raise {A} (e : exn) (Q : A -> world -> Prop) (R : world -> Prop) :
  triple R (mraise e) Q R.
Proof. intros w Hw. exact Hw. Qed.

Lemma triple_lift {A} (o : outcome A) (P : world -> Prop) :
  triple P (mlift o) (fun a w => o = Ok a /\ P w) P.
Proof. intros w Hw. unfold mlift. destruct o; [split; [reflexivity|exact Hw]|exact Hw]. Qed.

Lemma triple_load (l : nat) (P : world -> Prop) :
  triple P (load l) (fun a w => heap w !! l = Some a /\ P w) P.
Proof.
  intros w Hw. unfold load. destruct (heap w !! l) eqn:Hl; [split; [exact Hl|exact Hw]|exact Hw].
Qed.

(** ** [clean] leaves the caller's arrays alone *)

Section Frame.

Variable E : externals.

Lemma heap_kept_length h0 w : heap_kept h0 w -> length h0 <= length (heap w).
Proof.
  unfold heap_kept. intros H. rewrite <- H at 1. rewrite length_take. lia.
Qed.

Lemma heap_kept_lookup h0 w l a : heap_kept h0 w -> h0 !! l = Some a -> heap w !! l = Some a.
Proof.
  unfold heap_kept. intros H Hl. rewrite <- H in Hl.
  apply lookup_take_Some in Hl. tauto.
Qed.

Variable h0 : list ndarray.

Lemma kept_lift {A} (o : outcome A) :
  triple (heap_kept h0) (mlift o) (fun _ => heap_kept h0) (heap_kept h0).
Proof. eapply triple_weaken; [apply triple_lift|auto|simpl; tauto]. Qed.

Lemma kept_load (l : nat) :
  triple (heap_kept h0) (load l) (fun _ => heap_kept h0) (heap_kept h0).
Proof. eapply triple_weaken; [apply triple_load|auto|simpl; tauto]. Qed.

Lemma kept_alloc (a : ndarray) :
  triple (heap_kept h0) (alloc a)
    (fun l w => length h0 <= l /\ heap_kept h0 w) (heap_kept h0).
Proof.
  intros w Hw. unfold alloc. simpl. split; [apply heap_kept_length, Hw|].
  unfold heap_kept in *. simpl. rewrite take_app_le; [exact Hw|].
  apply heap_kept_length, Hw.
Qed.

Lemma kept_store (l : nat) (a : ndarray) :
  length h0 <= l ->
  triple (heap_kept h0) (store l a) (fun _ => heap_kept h0) (heap_kept h0).
Proof.
  intros Hl w Hw. unfold store, heap_kept in *. simpl.
  rewrite take_insert_ge; assumption.
Qed.

Lemma kept_on_globals {A} (f : globals -> outcome A * globals) :
  triple (heap_kept h0) (on_globals f) (fun _ => heap_kept h0) (heap_kept h0).
Proof.
  intros w Hw. unfold on_globals. simpl. destruct (f (glob w)) as [[a|e] g']; exact Hw.
Qed.

Lemma kept_demixNSGT (sig : matrix) :
  triple (heap_kept h0) (demixNSGT E sig)
    (fun l w => length h0 <= l /\ heap_kept h0 w) (heap_kept h0).
Proof.
  intros w Hw. unfold demixNSGT. destruct (demix E (glob w) sig) as [arr|e]; [|exact Hw].
  split; [apply heap_kept_length, Hw|].
  unfold heap_kept in *. simpl. rewrite take_app_le; [exact Hw|].
  apply heap_kept_length, Hw.
Qed.

Lemma triple_pure {A} (phi : Prop) (P : world -> Prop) (c : M A)
    (Q : A -> world -> Prop) (R : world -> Prop) :
  (phi -> triple P c Q R) -> triple (fun w => phi /\ P w) c Q R.
Proof. intros H w [Hphi Hw]. apply (H Hphi w Hw). Qed.

Lemma kept_ret {A} (a : A) (phi : A -> Prop) :
  phi a ->
  triple (heap_kept h0) (mret a) (fun a w => phi a /\ heap_kept h0 w) (heap_kept h0).
Proof. intros H w Hw. split; assumption. Qed.

Lemma kept_forget {A} (c : M A) (phi : A -> Prop) :
  triple (heap_kept h0) c (fun a w => phi a /\ heap_kept h0 w) (heap_kept h0) ->
  triple (heap_kept h0) c (fun _ => heap_kept h0) (heap_kept h0).
Proof. intros H. eapply triple_weaken; [exact H|auto|simpl; tauto]. Qed.

Ltac kept_simple :=
  first [ apply kept_lift | apply kept_load | apply kept_on_globals | apply triple_raise ].

Ltac kept_seq :=
  repeat (lazymatch goal with
          | |- triple _ (mbind _ _) _ _ => eapply triple_bind; [kept_simple | intros ?]
          end).

Lemma kept_assign_row (res axis : nat) (v : ndarray) :
  length h0 <= res ->
  triple (heap_kept h0) (assign_row res axis v) (fun _ => heap_kept h0) (heap_kept h0).
Proof.
  intros Hres. unfold assign_row. kept_seq.
  repeat case_match; first [apply kept_store; exact Hres | apply triple_raise].
Qed.

Lemma kept_clean_axis (B res axis : nat) :
  length h0 <= res ->
  triple (heap_kept h0) (clean_axis E B res axis) (fun _ => heap_kept h0) (heap_kept h0).
Proof.
  intros Hres. unfold clean_axis. kept_seq.
  eapply triple_bind; [apply kept_demixNSGT|]. intros l. apply triple_pure. intros Hl.
  kept_seq. apply kept_assign_row, Hres.
Qed.

Lemma kept_add_in_place (r : ref) (m : ndarray) :
  fresh_ref h0 r ->
  triple (heap_kept h0) (add_in_place r m) (fun _ => heap_kept h0) (heap_kept h0).
Proof.
  intros Hr. destruct r as [l|l i]; simpl in *; kept_seq; apply kept_store, Hr.
Qed.

Lemma kept_clean_flat (B : nat) :
  triple (heap_kept h0) (clean_flat E B)
    (fun r w => fresh_ref h0 r /\ heap_kept h0 w) (heap_kept h0).
Proof.
  unfold clean_flat. kept_seq.
  eapply triple_bind; [apply kept_demixNSGT|]. intros l. apply triple_pure. intros Hl.
  kept_seq. apply kept_ret. exact Hl.
Qed.

Lemma kept_clean_triaxial (B : nat) :
  triple (heap_kept h0) (clean_triaxial E B)
    (fun r w => fresh_ref h0 r /\ heap_kept h0 w) (heap_kept h0).
Proof.
  unfold clean_triaxial. kept_seq.
  eapply triple_bind; [apply kept_alloc|]. intros res. apply triple_pure. intros Hres.
  do 3 (eapply triple_bind; [apply kept_clean_axis, Hres|intros ?]).
  apply kept_ret. exact Hres.
Qed.

Lemma kept_subtract_trend (B0 size : nat) :
  triple (heap_kept h0) (subtract_trend E B0 size)
    (fun d w => (forall tr, d.2 = Some tr -> length h0 <= tr) /\ heap_kept h0 w)
    (heap_kept h0).
Proof.
  unfold subtract_trend. kept_seq.
  eapply triple_bind; [apply kept_alloc|]. intros tr. apply triple_pure. intros Htr.
  kept_seq.
  eapply triple_bind; [apply kept_alloc|]. intros B. apply triple_pure. intros HB.
  apply (kept_ret (B, Some tr) (fun d => forall tr', d.2 = Some tr' -> length h0 <= tr')).
  simpl. intros tr' [= <-]. exact Htr.
Qed.

Lemma kept_remove_trend (B0 : nat) :
  triple (heap_kept h0) (remove_trend E B0)
    (fun d w => (forall tr, d.2 = Some tr -> length h0 <= tr) /\ heap_kept h0 w)
    (heap_kept h0).
Proof.
  intros w Hw. unfold remove_trend. destruct (detrend (glob w)).
  - apply kept_subtract_trend, Hw.
  - simpl. split; [discriminate|exact Hw].
Qed.

Lemma kept_restore_trend (res : ref) (trend : option nat) :
  fresh_ref h0 res ->
  triple (heap_kept h0) (restore_trend res trend) (fun _ => heap_kept h0) (heap_kept h0).
Proof.
  intros Hres. unfold restore_trend. destruct trend as [tr|].
  - kept_seq. eapply triple_bind; [apply kept_add_in_place, Hres|]. intros ?.
    apply (triple_ret res (fun _ => heap_kept h0)).
  - apply (triple_ret res (fun _ => heap_kept h0)).
Qed.

Lemma kept_clean (B0 : nat) (triaxial : bool) :
  triple (heap_kept h0) (clean E B0 triaxial) (fun _ => heap_kept h0) (heap_kept h0).
Proof.
  unfold clean.
  eapply triple_bind; [apply kept_remove_trend|]. intros d. apply triple_pure. intros _.
  eapply triple_bind.
  - destruct triaxial; [apply kept_clean_triaxial|apply kept_clean_flat].
  - intros res. apply triple_pure. intros Hres. apply kept_restore_trend, Hres.
Qed.

End Frame.

(** C10.  [clean] writes only to arrays it has created itself: an array the
    caller holds, [B] among them, has after the call the shape and the
    elements it had before, for both values of [triaxial], with or without
    detrending, and whether the call returns or raises. *)
Theorem clean_never_mutates_its_input :
  forall (E : externals) (B : nat) (triaxial : bool) (w : world) (b : ndarray),
    heap w !! B = Some b ->
    heap (clean E B triaxial w).2 !! B = Some b.
Proof.
  intros E B triaxial w b Hb.
  pose proof (kept_clean E (heap w) B triaxial w) as H.
  assert (Hw : heap_kept (heap w) w) by (unfold heap_kept; apply take_ge; lia).
  specialize (H Hw).
  destruct (clean E B triaxial w) as [[r|e] w']; simpl;
    eapply heap_kept_lookup; eassumption.
Qed.

Lemma clean_keeps_example_B :
  heap (clean example_externals 0 true example_world).2 !! 0 = Some example_B.
Proof.
  apply (clean_never_mutates_its_input example_externals 0 true example_world example_B).
  reflexivity.
Defined.

(** ** Every axis starts from a reset dictionary *)

(** C2 (as stated, refuted).  On [example_B] the first axis adds a centroid
    under key 1; after the second axis, which finds no cluster, the key is
    gone, and when [clean] has returned the dictionary holds the ambient
    entry alone. *)
Lemma centroid_of_axis_0_is_gone_after_axis_1 :
  let w1 := (clean_axis example_externals 0 1 0 example_axis_world).2 in
  let w2 := (clean_axis example_externals 0 1 1 w1).2 in
  is_Some (od_get (clusterCentroids (glob w1)) 1) /\
  od_get (clusterCentroids (glob w2)) 1 = None /\
  clusterCentroids (glob (clean example_externals 0 true example_world).2)
  = [(0, np_ones 2)].
Proof.
  split; [|split].
  - vm_compute. eexists. reflexivity.
  - vm_compute. reflexivity.
  - vm_compute. reflexivity.
Qed.

(** C2 (amended).  An axis of [clean(B, triaxial=True)], and the single pass
    of [clean(B, triaxial=False)], first call [setMagnetometers(B.shape[0])]:
    what they return and the world they leave, the dictionary included, are
    the same whatever dictionary they found. *)
Theorem every_pass_starts_from_a_reset_dictionary :
  forall (E : externals) (B res axis : nat) (w : world) (d : odict) (b : ndarray),
    heap w !! B = Some b ->
    shape b <> [] ->
    clean_axis E B res axis (with_dictionary w d) = clean_axis E B res axis w /\
    clean_flat E B (with_dictionary w d) = clean_flat E B w.
Proof.
  intros E B res axis w d b Hb Hs.
  destruct (shape b) as [|n sh] eqn:Hshape; [congruence|].
  split.
  - unfold clean_axis, mbind, load, mlift, on_globals, shape_first. simpl.
    rewrite Hb, Hshape. reflexivity.
  - unfold clean_flat, mbind, load, mlift, on_globals, shape_first. simpl.
    rewrite Hb, Hshape. reflexivity.
Qed.

Lemma reset_dictionary_example :
  clean_axis example_externals 0 1 1
    (with_dictionary example_axis_world [(0, np_ones 2); (1, [Cx 0.6 0; Cx 0.8 0])])
  = clean_axis example_externals 0 1 1 example_axis_world /\
  clean_flat example_externals 0
    (with_dictionary example_axis_world [(0, np_ones 2); (1, [Cx 0.6 0; Cx 0.8 0])])
  = clean_flat example_externals 0 example_axis_world.
Proof.
  apply (every_pass_starts_from_a_reset_dictionary example_externals 0 1 1
           example_axis_world _ example_B).
  - reflexivity.
  - discriminate.
Defined.

(** ** The shape of what [clean] returns *)

Lemma boom_ok_in_range g data :
  boom_ok (length data) g -> boom_in_range g data.
Proof.
  unfold boom_ok, boom_in_range, py_index. destruct (boom g) as [i|]; [|auto].
  intros Hi. destruct (Z.leb_spec 0 i).
  - apply lookup_lt_is_Some. lia.
  - destruct (Z.leb_spec (- Z.of_nat (length data)) i); [|lia].
    apply lookup_lt_is_Some. lia.
Qed.

Lemma omap_returns {A B} (f : A -> outcome B) (Q : B -> Prop) (l : list A) :
  Forall (fun a => exists b, f a = Ok b /\ Q b) l ->
  exists bs, omap f l = Ok bs /\ Forall Q bs /\ length bs = length l.
Proof.
  induction 1 as [|a l [b [Hb HQ]] _ [bs [Hbs [HQs Hlen]]]]; simpl.
  - exists []. auto.
  - rewrite Hb, Hbs. simpl. exists (b :: bs). repeat split; [constructor; assumption|].
    simpl. congruence.
Qed.

Lemma length_column (rs : list cvec) (j : nat) : length (column rs j) = length rs.
Proof. unfold column. apply length_map. Qed.

Lemma iter_rows_transpose (m : matrix) :
  iter_rows (transpose m) = map (column (rows m)) (seq 0 (ncols m)).
Proof.
  unfold iter_rows, transpose. simpl. apply take_ge.
  rewrite length_map, length_seq. lia.
Qed.

Lemma Forall_map_intro {A B} (P : B -> Prop) (f : A -> B) (l : list A) :
  (forall a, P (f a)) -> Forall P (map f l).
Proof. intros H. induction l; simpl; constructor; auto. Qed.

Lemma Forall_map_seq {A} (P : A -> Prop) (f : nat -> A) (start n : nat) :
  (forall i, start <= i < start + n -> P (f i)) -> Forall P (map f (seq start n)).
Proof.
  revert start. induction n as [|n IH]; intros start H; simpl; constructor.
  - apply H. lia.
  - apply IH. intros i Hi. apply H. lia.
Qed.

Lemma forallb_same_length (rs : list cvec) (n : nat) :
  Forall (fun r => length r = n) rs ->
  forallb (fun r => Nat.eqb (length r) n) rs = true.
Proof.
  induction 1 as [|r rs Hr _ IH]; simpl; [reflexivity|].
  rewrite Hr, Nat.eqb_refl. exact IH.
Qed.

Lemma stack_solutions_returns (n : nat) (results : list (option xarray)) :
  results <> [] ->
  Forall (fun r : option xarray => exists x, r = Some x /\ x_length x = n) results ->
  exists m, stack_solutions results = Ok m /\ length (iter_rows m) = n.
Proof.
  intros Hne Hall. destruct results as [|r0 results]; [congruence|].
  pose proof (Forall_inv Hall) as [x0 [-> Hx0]]. unfold stack_solutions.
  set (check := fun r : option xarray => _).
  destruct (omap_returns check (fun _ => True) (Some x0 :: results)) as [xs [-> [_ Hlen]]].
  { eapply Forall_impl; [exact Hall|]. intros r [x [-> Hx]]. exists (promote x). unfold check.
    rewrite Hx, Hx0, Nat.eqb_refl. auto. }
  simpl. eexists. split; [reflexivity|].
  rewrite iter_rows_transpose. simpl. rewrite length_map, length_seq. exact Hx0.
Qed.

Lemma all_finite_forallb (rs : list cvec) :
  all_finite rs -> forallb (forallb C128.is_finite) rs = true.
Proof.
  induction 1 as [|r rs Hr _ IH]; simpl; [reflexivity|]. rewrite Hr, IH. reflexivity.
Qed.

Lemma forallb_all_finite (rs : list cvec) :
  forallb (forallb C128.is_finite) rs = true -> all_finite rs.
Proof.
  induction rs as [|r rs IH]; simpl; intros H; [constructor|].
  apply andb_prop in H as [H1 H2]. constructor; [exact H1|apply IH, H2].
Qed.

Lemma column_finite (rs : list cvec) (j : nat) :
  all_finite rs -> forallb C128.is_finite (column rs j) = true.
Proof.
  intros H. unfold column. induction H as [|r rs Hr _ IH]; simpl; [reflexivity|].
  rewrite IH, andb_true_r. destruct (r !! j) as [z|] eqn:Hz; simpl; [|reflexivity].
  rewrite forallb_forall in Hr. apply Hr, list_elem_of_In.
  eapply list_elem_of_lookup_2, Hz.
Qed.

(** *** What a pass reads of the globals *)

Lemma settings_kept_refl (g : globals) : settings_kept g g.
Proof. repeat split. Qed.

Lemma settings_kept_trans (g1 g2 g3 : globals) :
  settings_kept g1 g2 -> settings_kept g2 g3 -> settings_kept g1 g3.
Proof.
  intros (A1&A2&A3&A4&A5&A6&A7&A8&A9&A10) (B1&B2&B3&B4&B5&B6&B7&B8&B9&B10).
  repeat split; congruence.
Qed.

Lemma clusterNSGT_globals (E : externals) (sig : matrix) (g : globals) :
  settings_kept g (clusterNSGT E sig g).2 /\
  magnetometers (clusterNSGT E sig g).2 = magnetometers g /\
  (forall n, ambient_first n (clusterCentroids g) ->
             ambient_first n (clusterCentroids (clusterNSGT E sig g).2)).
Proof.
  unfold clusterNSGT. destruct (obind _ _) as [m|e]; cbn [snd].
  - split; [|split].
    + unfold updateCentroids. cbn [fst]. destruct (Nat.ltb _ _); repeat split.
    + unfold updateCentroids. cbn [fst]. destruct (Nat.ltb _ _); reflexivity.
    + intros n. apply updateCentroids_keeps_ambient.
  - split; [repeat split|split; [reflexivity|auto]].
Qed.

Lemma same_but_result_setMagnetometers (n : nat) (g0 g : globals) :
  settings_kept g0 g -> same_but_result (setMagnetometers n g0) (setMagnetometers n g).
Proof.
  intros (H1&H2&H3&H4&H5&H6&H7&H8&H9&H10).
  unfold same_but_result, with_result, setMagnetometers. cbn.
  rewrite H1, H2, H3, H4, H5, H6, H7, H8, H9, H10. reflexivity.
Qed.

Lemma clusterNSGT_ignores_result (E : externals) (sig : matrix) (g g' : globals) :
  same_but_result g g' ->
  (clusterNSGT E sig g').1 = (clusterNSGT E sig g).1 /\
  same_but_result (clusterNSGT E sig g).2 (clusterNSGT E sig g').2.
Proof.
  unfold same_but_result, with_result. destruct g, g'. cbn.
  intros [= -> -> -> -> -> -> -> -> -> -> -> ->].
  unfold clusterNSGT.
  match goal with
  | |- (match ?a with _ => _ end).1 = (match ?b with _ => _ end).1 /\ _ =>
      change a with b; destruct b as [m|e]
  end.
  - split; [reflexivity|]. cbn [snd]. unfold updateCentroids. cbn [fst].
    destruct (Nat.ltb _ _); reflexivity.
  - split; reflexivity.
Qed.

Lemma demix_coefficients_ignores_result (E : externals) (sig : matrix) (g g' : globals) :
  same_but_result g g' ->
  demix_coefficients E g' sig = demix_coefficients E g sig /\
  (forall len c, backward E g' len c = backward E g len c).
Proof.
  unfold same_but_result, with_result. destruct g, g'. cbn.
  intros [= -> -> -> -> -> -> -> -> -> -> -> ->]. split; reflexivity.
Qed.

Lemma nsgt_bins_ext (E : externals) (g g' : globals) (sig : matrix) :
  bpo g' = bpo g -> fs g' = fs g -> magnetometers g' = magnetometers g ->
  nsgt_bins E g' sig = nsgt_bins E g sig.
Proof.
  intros H1 H2 H3. unfold nsgt_bins, forward, nsgt_lowf, stack_subbands.
  rewrite H1, H2, H3. reflexivity.
Qed.

Lemma pass_ok_ignores_result (E : externals) (sig : matrix) (g g' : globals) :
  same_but_result g g' -> pass_ok E g sig -> pass_ok E g' sig.
Proof.
  intros Hs (Hret & Hcent & Hbins & Hinv).
  destruct (clusterNSGT_ignores_result E sig g g' Hs) as [H1 H2].
  assert (Hd : clusterCentroids (clusterNSGT E sig g').2
               = clusterCentroids (clusterNSGT E sig g).2)
    by exact (f_equal clusterCentroids H2).
  destruct (demix_coefficients_ignores_result E sig _ _ H2) as [Hc Hb].
  split; [congruence|]. split; [rewrite Hd; exact Hcent|]. split.
  - intros B HB.
    assert (HB' : nsgt_bins E g sig = Ok B).
    { rewrite <- HB. symmetry. unfold same_but_result in Hs. apply nsgt_bins_ext.
      - exact (f_equal bpo Hs).
      - exact (f_equal fs Hs).
      - exact (f_equal magnetometers Hs). }
    destruct (Hbins B HB') as (Hw & Hf & Hsolve). split; [exact Hw|]. split; [exact Hf|].
    unfold centroid_matrix. rewrite Hd. exact Hsolve.
  - intros c Hcoef. rewrite Hc in Hcoef. unfold inverse_returns. rewrite Hb.
    apply Hinv, Hcoef.
Qed.

(** A pass that returns has computed the matrix of coefficients. *)
Lemma clusterNSGT_returns_bins (E : externals) (sig : matrix) (g : globals) :
  (clusterNSGT E sig g).1 = Ok tt -> exists B, nsgt_bins E g sig = Ok B.
Proof.
  unfold clusterNSGT, nsgt_bins.
  destruct (forward E g sig) as [B0|e]; cbn [obind fst]; [|discriminate].
  destruct (stack_subbands g B0) as [B|e]; cbn [obind fst]; [eauto|discriminate].
Qed.

(** The matrix of coefficients has one row for each sensor. *)
Lemma nsgt_bins_rows (E : externals) (g : globals) (sig : matrix) (B : matrix) :
  nsgt_bins E g sig = Ok B ->
  exists B0, forward E g sig = Ok B0 /\ stack_subbands g B0 = Ok B /\
    magnetometers g <= length B0 /\ length (rows B) = magnetometers g.
Proof.
  unfold nsgt_bins. destruct (forward E g sig) as [B0|e]; cbn [obind]; [|discriminate].
  intros H. exists B0. split; [reflexivity|]. split; [exact H|].
  unfold stack_subbands, first_n in H.
  destruct (Nat.leb_spec (magnetometers g) (length B0)) as [Hle|]; [|discriminate].
  cbn [obind] in H. unfold np_vstack in H.
  destruct (map _ (take _ B0)) as [|r rs] eqn:Hrs; [discriminate|].
  destruct (forallb _ _); [|discriminate]. injection H as <-. cbn [rows].
  split; [exact Hle|]. rewrite <- Hrs, length_map, length_take. lia.
Qed.

Section ShapeContract.

Variable E : externals.

Lemma attempt_returns A data n st :
  solve_leaves_a_value E A data ->
  0 < n -> data <> [] -> length (w_param st) = n ->
  (x_value st = None \/ cs_ready n st) ->
  exists st' brk, attempt E A data n st = Ok (st', brk) /\ cs_ready n st'.
Proof.
  intros Hsolve Hn Hd Hw Hx. unfold attempt.
  destruct (cvx_solve E A data (w_param st) (promote <$> x_value st))
    as [[status v]|e] eqn:Hs.
  - destruct (Hsolve _ _ _ _ Hs) as [x [-> Hlen]].
    eexists _, _. split; [reflexivity|]. split; simpl; [|exact Hw].
    exists (Complex128 x). split; [reflexivity|]. simpl. congruence.
  - destruct Hx as [Hnone | [[x [Hx Hlen]] _]].
    + rewrite Hnone. destruct (fallback_spec E n data Hn Hd) as [v [_ ->]]. simpl.
      eexists _, _. split; [reflexivity|]. split; simpl; [|exact Hw].
      eexists. split; [reflexivity|]. simpl. rewrite length_insert. apply length_replicate.
    + rewrite Hx. eexists _, _. split; [reflexivity|].
      split; simpl; [exists x; auto|exact Hw].
Qed.

Lemma reweight_returns A SSP n st :
  0 < n -> cs_ready n st ->
  exists st', reweight E A SSP st = Ok st' /\ cs_ready n st'.
Proof.
  intros Hn [[x [Hx Hlen]] Hw]. unfold reweight.
  assert (Hr : cs_ready n (rebind_w st)).
  { split; simpl; [exists x; auto|exact Hw]. }
  destruct SSP; [eauto|]. rewrite Hx. destruct (PrimFloat.ltb _ _); [eauto|].
  unfold nudge_ambient_weight.
  destruct (x_abs E x) as [|x0 x'] eqn:Habs.
  { destruct x as [[|? ?]|[|? ?]]; simpl in Hlen, Habs; try lia; discriminate. }
  destruct (w_is_param st) eqn:Hp.
  - destruct (w_param st) as [|w0 ws] eqn:Hws; [simpl in Hw; lia|].
    eexists. split; [reflexivity|]. split; simpl; [eauto|exact Hw].
  - destruct (inv_pos_value E x) as [|i0 it] eqn:Hinv.
    { unfold inv_pos_value in Hinv. rewrite Habs in Hinv. discriminate. }
    eexists. split; [reflexivity|]. split; [eauto|exact Hw].
Qed.

Lemma cs_loop_returns iters A data n SSP st :
  solve_leaves_a_value E A data ->
  0 < n -> data <> [] -> cs_ready n st ->
  exists st', cs_loop E iters A data n SSP st = Ok st' /\ cs_ready n st'.
Proof.
  intros Hsolve Hn Hd. revert st.
  induction iters as [|iters IH]; intros st Hst; simpl; [eauto|].
  destruct (attempt_returns A data n st Hsolve Hn Hd (proj2 Hst) (or_intror Hst))
    as [st1 [brk [-> Hst1]]].
  simpl. destruct brk; [eauto|].
  destruct (reweight_returns A SSP n st1 Hn Hst1) as [st2 [-> Hst2]]. simpl.
  apply IH, Hst2.
Qed.

Lemma processData_returns g A n data :
  solve_leaves_a_value E A data ->
  (0 < cs_iters g)%Z -> 0 < n -> 0 < magnetometers g ->
  length data = magnetometers g -> forallb C128.is_finite data = true ->
  boom_ok (magnetometers g) g ->
  exists x, processData E g A n data = Ok (Some x) /\ x_length x = n.
Proof.
  intros Hsolve Hit Hn Hm Hlen Hfin Hboom.
  assert (Hd : data <> []) by (destruct data; [simpl in Hlen; lia|discriminate]).
  unfold processData, processData_loop. rewrite Hlen, Nat.eqb_refl, Hfin.
  simpl negb. cbv iota.
  destruct (Z.to_nat (cs_iters g)) as [|iters] eqn:Hi; [lia|].
  simpl cs_loop.
  destruct (attempt_returns A data n (cs_initial n) Hsolve Hn Hd) as [st1 [brk [-> Hst1]]].
  { simpl. apply length_replicate. }
  { left. reflexivity. }
  simpl.
  assert (Hend : exists st, (if brk then Ok st1 else
             try! st' := reweight E A (processData_SSP E g data) st1 in
             cs_loop E iters A data n (processData_SSP E g data) st') = Ok st /\ cs_ready n st).
  { destruct brk; [eauto|].
    destruct (reweight_returns A (processData_SSP E g data) n st1 Hn Hst1) as [st2 [-> Hst2]].
    simpl. apply cs_loop_returns; assumption. }
  destruct Hend as [st [-> [[x [Hx Hxlen]] _]]]. simpl. rewrite Hx.
  unfold boom_check. rewrite <- Hlen in Hboom. apply boom_ok_in_range in Hboom.
  unfold boom_in_range in Hboom. destruct (boom g) as [i|]; [|eauto].
  destruct (i =? 0)%Z; [eauto|]. destruct Hboom as [bi ->].
  destruct (x_abs E x !! 0) as [a0|] eqn:Ha0.
  - destruct (PrimFloat.leb _ _); eexists; (split; [reflexivity|]); [|exact Hxlen].
    destruct x as [v|v]; simpl in *; rewrite length_insert; exact Hxlen.
  - apply lookup_ge_None in Ha0.
    destruct x as [v|v]; simpl in *; unfold np_abs in Ha0; rewrite length_map in Ha0; lia.
Qed.

Lemma weightedReconstruction_returns g sig :
  (0 < cs_iters g)%Z -> 0 < magnetometers g -> boom_ok (magnetometers g) g ->
  2 <= cpu_count E ->
  length (rows sig) = magnetometers g -> 0 < ncols sig -> all_finite (rows sig) ->
  clusterCentroids g <> [] -> all_finite (od_values (clusterCentroids g)) ->
  (forall j, j < ncols sig ->
     solve_leaves_a_value E (centroid_matrix g) (column (rows sig) j)) ->
  exists r, weightedReconstruction E g sig = Ok r /\
    length (iter_rows r) = length (clusterCentroids g).
Proof.
  intros Hit Hm Hboom Hcpu Hrows Hcols Hfin Hd Hcent Hsolve.
  unfold weightedReconstruction.
  rewrite (all_finite_forallb _ Hcent). cbn [negb].
  destruct (Nat.ltb_spec (cpu_count E - 1) 1) as [Hlt|_]; [lia|].
  set (n := length (clusterCentroids g)).
  assert (Hn : 0 < n) by (unfold n; destruct (clusterCentroids g); [congruence|simpl; lia]).
  set (A := transpose _).
  destruct (omap_returns (processData E g A n)
              (fun r => exists x, r = Some x /\ x_length x = n)
              (iter_rows (transpose sig))) as [results [-> [Hall Hlen]]].
  { rewrite iter_rows_transpose. apply Forall_map_seq. intros j Hj.
    destruct (processData_returns g A n (column (rows sig) j))
      as [x [Hx Hxlen]]; try assumption.
    - apply Hsolve. lia.
    - rewrite length_column. exact Hrows.
    - apply column_finite, Hfin.
    - eauto. }
  simpl. apply stack_solutions_returns; [|exact Hall].
  rewrite iter_rows_transpose, length_map, length_seq in Hlen.
  destruct results; [simpl in Hlen; lia|discriminate].
Qed.

Lemma np_array_returns (sig_r : list cvec) (len : nat) :
  sig_r <> [] -> Forall (fun x : cvec => length x = len) sig_r ->
  exists arr, np_array sig_r = Ok arr /\ shape arr = [length sig_r; len].
Proof.
  intros Hne Hall. destruct sig_r as [|s0 rest]; [congruence|]. unfold np_array.
  pose proof (Forall_inv Hall) as H0.
  rewrite H0, (forallb_same_length _ _ Hall). eexists. split; reflexivity.
Qed.

Lemma demix_returns g sig stacked :
  nsgt_bins E g sig = Ok stacked -> 0 < ncols stacked -> all_finite (rows stacked) ->
  (forall j, j < ncols stacked ->
     solve_leaves_a_value E (centroid_matrix g) (column (rows stacked) j)) ->
  (forall c, demix_coefficients E g sig = Ok c -> inverse_returns E g (ncols sig) c) ->
  0 < magnetometers g ->
  (0 < cs_iters g)%Z -> boom_ok (magnetometers g) g -> 2 <= cpu_count E ->
  clusterCentroids g <> [] -> all_finite (od_values (clusterCentroids g)) ->
  exists arr k, demix E g sig = Ok arr /\ shape arr = [k; ncols sig] /\ 0 < k.
Proof.
  intros Hbins Hcols Hfin Hsolve Hinv Hm Hit Hboom Hcpu Hd Hcent.
  destruct (nsgt_bins_rows E g sig stacked Hbins) as [B [Hf [Hs [Hle Hrows]]]].
  destruct B as [|B0 Bs]; [simpl in Hle; lia|].
  destruct (weightedReconstruction_returns g stacked) as [r [Hr Hlen]]; try assumption.
  set (S_nsgt := map (split_subbands (map (fun sb : cvec => length sb) B0)) (iter_rows r)).
  assert (Hcoef : demix_coefficients E g sig = Ok S_nsgt).
  { unfold demix_coefficients. rewrite Hf. cbn [obind]. rewrite Hs. cbn [obind].
    rewrite Hr. reflexivity. }
  destruct (Hinv S_nsgt Hcoef) as [sig_r [Hback [Hn Hall]]].
  unfold demix. rewrite Hf. cbn [obind]. rewrite Hs. cbn [obind]. rewrite Hr.
  cbn [obind]. fold S_nsgt. rewrite Hback.
  assert (Hk : length sig_r = length (clusterCentroids g)).
  { rewrite Hn. unfold S_nsgt. rewrite length_map. exact Hlen. }
  assert (Hne : sig_r <> []).
  { destruct sig_r; [|discriminate]. destruct (clusterCentroids g); [congruence|discriminate]. }
  cbn [obind].
  destruct (np_array_returns sig_r (ncols sig) Hne Hall) as [arr [-> Hshape]].
  exists arr, (length sig_r). repeat split; [exact Hshape|].
  destruct sig_r; [congruence|simpl; lia].
Qed.

(** One pass, as [clean] runs it: [clusterNSGT(sig)], then
    [demixNSGT(sig)] with the dictionary the first has left. *)
Lemma pass_returns g sig :
  pass_ok E g sig ->
  0 < magnetometers g ->
  (0 < cs_iters g)%Z -> boom_ok (magnetometers g) g -> 2 <= cpu_count E ->
  ambient_first (magnetometers g) (clusterCentroids g) ->
  exists g2 arr k,
    clusterNSGT E sig g = (Ok tt, g2) /\ settings_kept g g2 /\
    demix E g2 sig = Ok arr /\ shape arr = [k; ncols sig] /\ 0 < k.
Proof.
  intros (Hret & Hcent & Hbins & Hinv) Hm Hit Hboom Hcpu Hamb.
  destruct (clusterNSGT_globals E sig g) as (Hset & Hmag & Hkeep).
  destruct (clusterNSGT_returns_bins E sig g Hret) as [stacked Hst].
  set (g2 := (clusterNSGT E sig g).2) in *.
  assert (Hst2 : nsgt_bins E g2 sig = Ok stacked).
  { rewrite <- Hst. apply nsgt_bins_ext; [apply Hset..|exact Hmag]. }
  destruct (Hbins stacked Hst) as (Hwide & Hfin & Hsolve).
  destruct (demix_returns g2 sig stacked) as [arr [k [Hdem [Hshape Hk]]]];
    try assumption.
  - rewrite Hmag. exact Hm.
  - destruct Hset as (_&_&_&_&_&_&_&_&_&->). exact Hit.
  - unfold boom_ok in *. rewrite Hmag.
    destruct Hset as (_&_&_&_&_&_&_&_&->&_). exact Hboom.
  - destruct (Hkeep _ Hamb) as [rest ->]. discriminate.
  - exists g2, arr, k. split; [|auto].
    destruct (clusterNSGT E sig g) as [r g'] eqn:Hcl. cbn [fst snd] in *.
    subst g2. rewrite Hret. reflexivity.
Qed.

Lemma mbind_run {A B} (c : M A) (k : A -> M B) (w w' : world) (a : A) :
  c w = (Ok a, w') -> mbind c k w = k a w'.
Proof. intros H. unfold mbind. rewrite H. reflexivity. Qed.

Lemma nd_axis_returns b axis ns n :
  shape b = [ns; 3; n] -> axis < 3 ->
  exists sig, nd_axis b axis = Ok sig /\ nrows sig = ns /\ ncols sig = n.
Proof.
  intros Hs Ha. unfold nd_axis. rewrite Hs.
  destruct (Nat.ltb_spec axis 3); [|lia].
  eexists. split; [reflexivity|]. split; reflexivity.
Qed.

Lemma nd_matrix_returns b ns n :
  shape b = [ns; n] ->
  exists sig, nd_matrix b = Ok sig /\ nrows sig = ns /\ ncols sig = n.
Proof.
  intros Hs. unfold nd_matrix. rewrite Hs.
  eexists. split; [reflexivity|]. split; reflexivity.
Qed.

Lemma nd_row_returns arr k n :
  shape arr = [k; n] -> 0 < k ->
  exists v, nd_row arr 0 = Ok v /\ shape v = [n].
Proof.
  intros Hs Hk. unfold nd_row. rewrite Hs.
  destruct (Nat.ltb_spec 0 k); [|lia]. eexists. split; reflexivity.
Qed.

(** One pass of [clean] from a world whose settings are those of [g0]. *)
Lemma clean_pass_returns g0 ns sig w :
  0 < ns ->
  (0 < cs_iters g0)%Z -> boom_ok ns g0 -> 2 <= cpu_count E ->
  pass_ok E (setMagnetometers ns g0) sig ->
  settings_kept g0 (glob w) ->
  exists g2 arr k,
    clusterNSGT E sig (setMagnetometers ns (glob w)) = (Ok tt, g2) /\
    settings_kept g0 g2 /\
    demix E g2 sig = Ok arr /\ shape arr = [k; ncols sig] /\ 0 < k.
Proof.
  intros Hns Hit Hboom Hcpu Hpass Hset.
  pose proof Hset as (_&_&_&_&_&_&_&_&Hb&Hi).
  destruct (pass_returns (setMagnetometers ns (glob w)) sig)
    as [g2 [arr [k [Hcl [Hset2 Hrest]]]]].
  - eapply pass_ok_ignores_result; [|exact Hpass].
    apply same_but_result_setMagnetometers, Hset.
  - exact Hns.
  - cbn. rewrite Hi. exact Hit.
  - unfold boom_ok in *. cbn. rewrite Hb. exact Hboom.
  - exact Hcpu.
  - exists []. reflexivity.
  - exists g2, arr, k. split; [exact Hcl|]. split; [|exact Hrest].
    eapply settings_kept_trans; [exact Hset|].
    eapply settings_kept_trans; [|exact Hset2]. repeat split.
Qed.

Lemma clean_axis_returns g0 B res b ns n axis sig w :
  shape b = [ns; 3; n] -> 0 < ns -> 0 < n -> axis < 3 -> B <> res ->
  (0 < cs_iters g0)%Z -> boom_ok ns g0 -> 2 <= cpu_count E ->
  nd_axis b axis = Ok sig -> pass_ok E (setMagnetometers ns g0) sig ->
  axis_inv g0 B res b n w ->
  exists w', clean_axis E B res axis w = (Ok tt, w') /\ axis_inv g0 B res b n w'.
Proof.
  intros Hshape Hns Hn Haxis Hne Hit Hboom Hcpu Hsig Hpass [HB [[a [Ha Hashape]] Hset]].
  destruct (nd_axis_returns b axis ns n Hshape Haxis) as [sig' [Hsig' [Hr Hc]]].
  rewrite Hsig in Hsig'. injection Hsig' as <-.
  destruct (clean_pass_returns g0 ns sig w) as [g2 [arr [k [Hcl [Hset2 [Hdemix [Harr Hk]]]]]]];
    try assumption.
  destruct (nd_row_returns arr k (ncols sig) Harr Hk) as [row0 [Hrow0 Hrshape]].
  assert (HresLt : res < length (heap w)) by (apply lookup_lt_Some in Ha; exact Ha).
  assert (HBLt : B < length (heap w)) by (apply lookup_lt_Some in HB; exact HB).
  unfold clean_axis.
  erewrite mbind_run by (unfold load; rewrite HB; reflexivity).
  erewrite mbind_run by (unfold mlift, shape_first; rewrite Hshape; reflexivity).
  erewrite mbind_run by (unfold on_globals; cbn [fst snd]; reflexivity).
  erewrite mbind_run by (unfold mlift; rewrite Hsig; reflexivity).
  erewrite mbind_run
    by (unfold on_globals; cbn [glob heap]; rewrite Hcl; cbn [fst snd]; reflexivity).
  erewrite mbind_run by (unfold load; cbn [glob heap]; rewrite HB; reflexivity).
  erewrite mbind_run by (unfold mlift; rewrite Hsig; reflexivity).
  erewrite mbind_run by (unfold demixNSGT; cbn [glob heap]; rewrite Hdemix; reflexivity).
  erewrite mbind_run
    by (unfold load; cbn [glob heap]; rewrite lookup_app_r, Nat.sub_diag by lia; reflexivity).
  erewrite mbind_run by (unfold mlift; rewrite Hrow0; reflexivity).
  unfold assign_row.
  erewrite mbind_run
    by (unfold load; cbn [glob heap]; rewrite lookup_app_l by lia; rewrite Ha; reflexivity).
  rewrite Hashape, Hrshape, Hc.
  destruct (Nat.ltb_spec axis 3) as [_|]; [|lia]. cbn [negb].
  rewrite Nat.eqb_refl. unfold store. cbn [glob heap].
  eexists. split; [reflexivity|]. repeat split; cbn [glob heap]; try apply Hset2.
  - rewrite list_lookup_insert_ne by congruence. rewrite lookup_app_l by lia. exact HB.
  - eexists. split.
    + apply list_lookup_insert_eq. rewrite length_app. lia.
    + unfold nd_set_row. cbn [shape]. exact Hashape.
Qed.

Lemma clean_triaxial_returns B b ns n w :
  shape b = [ns; 3; n] -> 0 < ns -> 0 < n -> heap w !! B = Some b ->
  (0 < cs_iters (glob w))%Z -> boom_ok ns (glob w) -> 2 <= cpu_count E ->
  (forall axis sig, axis < 3 -> nd_axis b axis = Ok sig ->
     pass_ok E (setMagnetometers ns (glob w)) sig) ->
  exists res w' a,
    clean_triaxial E B w = (Ok (Whole res), w') /\
    heap w' !! res = Some a /\ shape a = [3; n].
Proof.
  intros Hshape Hns Hn HB Hit Hboom Hcpu Hpass.
  assert (HBLt : B < length (heap w)) by (apply lookup_lt_Some in HB; exact HB).
  set (res := length (heap w)).
  set (w0 := World (glob w) (heap w ++ [NdArray [3; n] (replicate (3 * n) C128.c0)])).
  assert (H0 : axis_inv (glob w) B res b n w0).
  { repeat split; cbn [glob heap w0].
    - rewrite lookup_app_l by lia. exact HB.
    - eexists. split.
      + unfold res. rewrite lookup_app_r, Nat.sub_diag by lia. reflexivity.
      + reflexivity. }
  assert (Hne : B <> res) by (unfold res; lia).
  destruct (nd_axis_returns b 0 ns n Hshape) as [s0 [Hs0 _]]; [lia|].
  destruct (nd_axis_returns b 1 ns n Hshape) as [s1 [Hs1 _]]; [lia|].
  destruct (nd_axis_returns b 2 ns n Hshape) as [s2 [Hs2 _]]; [lia|].
  destruct (clean_axis_returns (glob w) B res b ns n 0 s0 w0) as [w1 [Hr1 H1]];
    try assumption; [lia|apply (Hpass 0); [lia|exact Hs0]|].
  destruct (clean_axis_returns (glob w) B res b ns n 1 s1 w1) as [w2 [Hr2 H2]];
    try assumption; [lia|apply (Hpass 1); [lia|exact Hs1]|].
  destruct (clean_axis_returns (glob w) B res b ns n 2 s2 w2) as [w3 [Hr3 H3]];
    try assumption; [lia|apply (Hpass 2); [lia|exact Hs2]|].
  destruct H3 as [_ [[a [Ha Hashape]] _]].
  exists res, w3, a. split; [|split; assumption].
  unfold clean_triaxial.
  erewrite mbind_run by (unfold load; rewrite HB; reflexivity).
  erewrite mbind_run by (unfold mlift, shape_last; rewrite Hshape; reflexivity).
  erewrite mbind_run by (unfold alloc; reflexivity).
  fold res. fold w0.
  erewrite mbind_run by exact Hr1.
  erewrite mbind_run by exact Hr2.
  erewrite mbind_run by exact Hr3.
  reflexivity.
Qed.

Lemma clean_flat_returns B b ns n w :
  shape b = [ns; n] -> 0 < ns -> 0 < n -> heap w !! B = Some b ->
  (0 < cs_iters (glob w))%Z -> boom_ok ns (glob w) -> 2 <= cpu_count E ->
  (forall sig, nd_matrix b = Ok sig -> pass_ok E (setMagnetometers ns (glob w)) sig) ->
  exists l w' arr k,
    clean_flat E B w = (Ok (Row l 0), w') /\
    heap w' !! l = Some arr /\ shape arr = [k; n] /\ 0 < k.
Proof.
  intros Hshape Hns Hn HB Hit Hboom Hcpu Hpass.
  destruct (nd_matrix_returns b ns n Hshape) as [sig [Hsig [Hr Hc]]].
  destruct (clean_pass_returns (glob w) ns sig w)
    as [g2 [arr [k [Hcl [Hset2 [Hdemix [Harr Hk]]]]]]];
    try assumption; [apply Hpass, Hsig|apply settings_kept_refl|].
  destruct (nd_row_returns arr k (ncols sig) Harr Hk) as [row0 [Hrow0 _]].
  exists (length (heap w)). eexists. exists arr, k.
  unfold clean_flat.
  erewrite mbind_run by (unfold load; rewrite HB; reflexivity).
  erewrite mbind_run by (unfold mlift, shape_first; rewrite Hshape; reflexivity).
  erewrite mbind_run by (unfold on_globals; cbn [fst snd]; reflexivity).
  erewrite mbind_run by (unfold mlift; rewrite Hsig; reflexivity).
  erewrite mbind_run
    by (unfold on_globals; cbn [glob heap]; rewrite Hcl; cbn [fst snd]; reflexivity).
  erewrite mbind_run by (unfold load; cbn [glob heap]; rewrite HB; reflexivity).
  erewrite mbind_run by (unfold mlift; rewrite Hsig; reflexivity).
  erewrite mbind_run by (unfold demixNSGT; cbn [glob heap]; rewrite Hdemix; reflexivity).
  erewrite mbind_run
    by (unfold load; cbn [glob heap]; rewrite lookup_app_r, Nat.sub_diag by lia; reflexivity).
  erewrite mbind_run by (unfold mlift; rewrite Hrow0; reflexivity).
  split; [reflexivity|]. cbn [glob heap].
  rewrite lookup_app_r, Nat.sub_diag by lia.
  repeat split; [congruence|exact Hk].
Qed.

Lemma nd_zip_returns f a b :
  shape a = shape b ->
  nd_zip f a b = Ok (NdArray (shape a) (zip_with f (data a) (data b))).
Proof.
  intros H. unfold nd_zip. rewrite bool_decide_eq_true_2 by exact H. reflexivity.
Qed.

Lemma nd_mean0_returns t n sh :
  shape t = n :: sh -> exists m, nd_mean0 t = Ok m /\ shape m = sh.
Proof.
  intros H. unfold nd_mean0. rewrite H. eexists. split; reflexivity.
Qed.

Lemma remove_trend_returns B0 b b' w :
  heap w !! B0 = Some b -> detrended E (glob w) b = Ok b' ->
  exists B trend w',
    remove_trend E B0 w = (Ok (B, trend), w') /\ glob w' = glob w /\
    heap w' !! B = Some b' /\ shape b' = shape b /\ trend_at w' trend (shape b).
Proof.
  intros HB Hd. unfold remove_trend. unfold detrended in Hd.
  destruct (detrend (glob w)).
  - destruct (uniform_filter1d E b (uf (glob w))) as [t|e] eqn:Ht; [|discriminate].
    cbn [obind] in Hd. unfold nd_zip in Hd.
    destruct (bool_decide (shape b = shape t)) eqn:Hsh; [|discriminate].
    apply bool_decide_eq_true in Hsh. injection Hd as <-.
    assert (HBLt : B0 < length (heap w)) by (apply lookup_lt_Some in HB; exact HB).
    unfold subtract_trend.
    erewrite mbind_run by (unfold load; rewrite HB; reflexivity).
    erewrite mbind_run by (unfold mlift; rewrite Ht; reflexivity).
    erewrite mbind_run by (unfold alloc; reflexivity).
    erewrite mbind_run
      by (unfold mlift; rewrite nd_zip_returns by exact Hsh; reflexivity).
    erewrite mbind_run by (unfold alloc; reflexivity).
    cbn [glob heap].
    exists (length (heap w ++ [t])), (Some (length (heap w))),
           (World (glob w)
              ((heap w ++ [t])
                 ++ [NdArray (shape b) (zip_with C128.sub (data b) (data t))])).
    split; [reflexivity|]. split; [reflexivity|]. cbn [glob heap]. split; [|split].
    + rewrite lookup_app_r, Nat.sub_diag by lia. reflexivity.
    + reflexivity.
    + exists t. split; [|symmetry; exact Hsh]. cbn [heap].
      rewrite lookup_app_l by (rewrite length_app; simpl; lia).
      rewrite lookup_app_r, Nat.sub_diag by lia. reflexivity.
  - injection Hd as <-. exists B0, None, w. split; [reflexivity|]. split; [reflexivity|].
    split; [exact HB|]. split; [reflexivity|exact I].
Qed.

Lemma restore_trend_whole res a trend ns sh w :
  heap w !! res = Some a -> shape a = sh -> trend_at w trend (ns :: sh) ->
  exists w' a',
    restore_trend (Whole res) trend w = (Ok (Whole res), w') /\
    deref w' (Whole res) = Some a' /\ shape a' = sh.
Proof.
  intros Ha Hs Ht. unfold restore_trend. destruct trend as [tr|].
  - destruct Ht as [t [Htr Hts]].
    destruct (nd_mean0_returns t ns sh Hts) as [m [Hm Hms]].
    assert (HLt : res < length (heap w)) by (apply lookup_lt_Some in Ha; exact Ha).
    erewrite mbind_run by (unfold load; rewrite Htr; reflexivity).
    erewrite mbind_run by (unfold mlift; rewrite Hm; reflexivity).
    unfold add_in_place.
    erewrite mbind_run by
      (erewrite mbind_run by (unfold load; rewrite Ha; reflexivity);
       erewrite mbind_run
         by (unfold mlift; rewrite nd_zip_returns by congruence; reflexivity);
       unfold store; reflexivity).
    eexists _, _. split; [reflexivity|]. cbn [deref glob heap]. split.
    + apply list_lookup_insert_eq. exact HLt.
    + exact Hs.
  - exists w, a. repeat split; assumption.
Qed.

Lemma restore_trend_row l arr k n trend ns w :
  heap w !! l = Some arr -> shape arr = [k; n] -> 0 < k -> trend_at w trend [ns; n] ->
  exists w' a',
    restore_trend (Row l 0) trend w = (Ok (Row l 0), w') /\
    deref w' (Row l 0) = Some a' /\ shape a' = [n].
Proof.
  intros Ha Hs Hk Ht. unfold restore_trend.
  destruct (nd_row_returns arr k n Hs Hk) as [v [Hv Hvs]].
  destruct trend as [tr|].
  - destruct Ht as [t [Htr Hts]].
    destruct (nd_mean0_returns t ns [n] Hts) as [m [Hm Hms]].
    assert (HLt : l < length (heap w)) by (apply lookup_lt_Some in Ha; exact Ha).
    erewrite mbind_run by (unfold load; rewrite Htr; reflexivity).
    erewrite mbind_run by (unfold mlift; rewrite Hm; reflexivity).
    unfold add_in_place.
    erewrite mbind_run by
      (erewrite mbind_run by (unfold load; rewrite Ha; reflexivity);
       erewrite mbind_run by (unfold mlift; rewrite Hv; reflexivity);
       erewrite mbind_run
         by (unfold mlift; rewrite nd_zip_returns by congruence; reflexivity);
       unfold store; reflexivity).
    cbn [glob heap].
    set (arr' := nd_set_row arr 0 _).
    destruct (nd_row_returns arr' k n) as [v' [Hv' Hvs']]; [exact Hs|exact Hk|].
    eexists _, v'. split; [reflexivity|]. cbn [deref glob heap].
    rewrite list_lookup_insert_eq by exact HLt. rewrite Hv'. split; [reflexivity|exact Hvs'].
  - exists w, v. split; [reflexivity|]. cbn [deref]. rewrite Ha, Hv. split; [reflexivity|exact Hvs].
Qed.

Lemma trend_at_kept w w' trend sh :
  heap_kept (heap w) w' -> trend_at w trend sh -> trend_at w' trend sh.
Proof.
  intros Hk. unfold trend_at. destruct trend as [tr|]; [|auto].
  intros [t [Ht Hs]]. exists t. split; [|exact Hs].
  eapply heap_kept_lookup; eassumption.
Qed.

Lemma heap_kept_refl w : heap_kept (heap w) w.
Proof. unfold heap_kept. apply take_ge. lia. Qed.

Lemma passes_axis b axis sig :
  axis < 3 -> nd_axis b axis = Ok sig -> Ok sig ∈ passes true b.
Proof.
  intros Ha <-. unfold passes.
  destruct axis as [|[|[|axis]]]; [| | |lia];
    repeat first [apply list_elem_of_here | apply list_elem_of_further].
Qed.

(** C3 (amended).  Let [B] have at least one sensor and one sample, the
    loop of the demixer run at least once, the boom index, if set, name a
    sensor, and the host have at least two CPUs.  Let the first
    [if(detrend)] return the array [b'] ([B] itself, or [B - trend]), and
    let every pass over [b'] meet sound data, with the other packages
    doing their part on them ([pass_ok]): [clusterNSGT] returns and leaves
    finite centroids, the transform has finite coefficients, at least one
    for each sensor, a solve that returns leaves a value in [x], and the
    inverse transform returns one signal of the length of the pass for
    each channel.  Then
    [clean(B, triaxial=True)] on an array of shape
    (n_sensors, 3, n_samples) returns, and what it returns has shape
    (3, n_samples); [clean(B, triaxial=False)] on an array of shape
    (n_sensors, n_samples) returns, and what it returns has shape
    (n_samples,). *)
Theorem clean_returns_the_documented_shape :
  forall (B0 : nat) (w : world) (b b' : ndarray) (ns n : nat) (triaxial : bool),
    heap w !! B0 = Some b ->
    shape b = (if triaxial then [ns; 3; n] else [ns; n]) ->
    0 < ns -> 0 < n ->
    (0 < cs_iters (glob w))%Z ->
    boom_ok ns (glob w) ->
    2 <= cpu_count E ->
    detrended E (glob w) b = Ok b' ->
    (forall sig, Ok sig ∈ passes triaxial b' ->
       pass_ok E (setMagnetometers ns (glob w)) sig) ->
    exists r w' a,
      clean E B0 triaxial w = (Ok r, w') /\
      deref w' r = Some a /\
      shape a = (if triaxial then [3; n] else [n]).
Proof.
  intros B0 w b b' ns n triaxial HB Hs Hns Hn Hit Hboom Hcpu Hdet Hpass.
  destruct (remove_trend_returns B0 b b' w HB Hdet)
    as [B [trend [w1 [Hrt [Hg [HB1 [Hs1 Htr]]]]]]].
  rewrite <- Hg in Hit, Hboom, Hpass.
  destruct triaxial.
  - destruct (clean_triaxial_returns B b' ns n w1) as [res [w2 [a [Hct [Ha Has]]]]];
      try assumption; [congruence| |].
    { intros axis sig Haxis Hsig. apply Hpass. eapply passes_axis; eassumption. }
    pose proof (kept_clean_triaxial E (heap w1) B w1 (heap_kept_refl w1)) as Hk.
    rewrite Hct in Hk. destruct Hk as [_ Hk].
    rewrite Hs in Htr. apply (trend_at_kept w1 w2) in Htr; [|exact Hk].
    destruct (restore_trend_whole res a trend ns [3; n] w2 Ha Has Htr)
      as [w3 [a' [Hre [Hderef Hshape]]]].
    exists (Whole res), w3, a'. split; [|split; assumption].
    unfold clean.
    erewrite mbind_run by exact Hrt. cbn [fst snd].
    erewrite mbind_run by exact Hct. exact Hre.
  - destruct (clean_flat_returns B b' ns n w1) as [l [w2 [arr [k [Hcf [Ha [Has Hk0]]]]]]];
      try assumption; [congruence| |].
    { intros sig Hsig. apply Hpass. unfold passes. rewrite Hsig. apply list_elem_of_here. }
    pose proof (kept_clean_flat E (heap w1) B w1 (heap_kept_refl w1)) as Hk.
    rewrite Hcf in Hk. destruct Hk as [_ Hk].
    rewrite Hs in Htr. apply (trend_at_kept w1 w2) in Htr; [|exact Hk].
    destruct (restore_trend_row l arr k n trend ns w2 Ha Has Hk0 Htr)
      as [w3 [a' [Hre [Hderef Hshape]]]].
    exists (Row l 0), w3, a'. split; [|split; assumption].
    unfold clean.
    erewrite mbind_run by exact Hrt. cbn [fst snd].
    erewrite mbind_run by exact Hcf. exact Hre.
Qed.

End ShapeContract.

(** The collaborators of the examples do their part: the inverse
    transform returns for a signal that is not empty, and the solver never
    returns. *)

Lemma example_inverse_returns (g : globals) (len : nat) (c : list (list cvec)) :
  0 < len -> inverse_returns example_externals g len c.
Proof.
  intros Hlen. exists (one_band_backward len c). split; [|split].
  - unfold backward, nsgt_lowf. destruct len; [lia|]. reflexivity.
  - unfold one_band_backward. apply length_map.
  - unfold one_band_backward.
    induction c; simpl; constructor; [apply length_resize|assumption].
Qed.

Lemma example_solve_leaves_a_value (A : matrix) (data : cvec) :
  solve_leaves_a_value example_externals A data.
Proof. intros wv xv status v H. discriminate H. Qed.

(** With these collaborators, a pass is sound when its steps evaluate
    so. *)
Lemma pass_ok_evaluated (g : globals) (sig B : matrix) :
  (clusterNSGT example_externals sig g).1 = Ok tt ->
  forallb (forallb C128.is_finite)
          (od_values (clusterCentroids (clusterNSGT example_externals sig g).2)) = true ->
  nsgt_bins example_externals g sig = Ok B ->
  0 < ncols B ->
  forallb (forallb C128.is_finite) (rows B) = true ->
  0 < ncols sig ->
  pass_ok example_externals g sig.
Proof.
  intros H1 H2 H3 H4 H5 H6. split; [exact H1|]. split; [apply forallb_all_finite, H2|].
  split.
  - intros B' HB'. rewrite H3 in HB'. injection HB' as <-.
    split; [exact H4|]. split; [apply forallb_all_finite, H5|].
    intros j _. apply example_solve_leaves_a_value.
  - intros c _. apply example_inverse_returns, H6.
Qed.

Lemma clean_shape_example :
  (exists r w' a,
     clean example_externals 0 true example_world_full = (Ok r, w') /\
     deref w' r = Some a /\ shape a = [3; 2]) /\
  (exists r w' a,
     clean example_externals 0 false example_world_flat = (Ok r, w') /\
     deref w' r = Some a /\ shape a = [2]).
Proof.
  split.
  - apply (clean_returns_the_documented_shape example_externals
             0 example_world_full example_B_full example_B_full 2 2 true).
    + reflexivity.
    + reflexivity.
    + lia.
    + lia.
    + reflexivity.
    + exact I.
    + simpl. lia.
    + reflexivity.
    + intros sig Hsig. unfold passes in Hsig.
      rewrite !elem_of_cons, elem_of_nil in Hsig.
      destruct Hsig as [Hsig|[Hsig|[Hsig|[]]]]; vm_compute in Hsig;
        injection Hsig as ->;
        (eapply pass_ok_evaluated;
         [vm_compute; reflexivity | vm_compute; reflexivity | vm_compute; reflexivity
         | cbn; lia | vm_compute; reflexivity | cbn; lia]).
  - apply (clean_returns_the_documented_shape example_externals
             0 example_world_flat example_B_flat example_B_flat 2 2 false).
    + reflexivity.
    + reflexivity.
    + lia.
    + lia.
    + reflexivity.
    + exact I.
    + simpl. lia.
    + reflexivity.
    + intros sig Hsig. unfold passes in Hsig.
      rewrite elem_of_cons, elem_of_nil in Hsig.
      destruct Hsig as [Hsig|[]]; vm_compute in Hsig; injection Hsig as ->;
        (eapply pass_ok_evaluated;
         [vm_compute; reflexivity | vm_compute; reflexivity | vm_compute; reflexivity
         | cbn; lia | vm_compute; reflexivity | cbn; lia]).
Defined.

(** The two calls of the example, evaluated: the shapes, and the same with
    detrending switched on. *)
Example clean_shape_evaluated :
  (let r := clean example_externals 0 true example_world_full in
   (r.1, shape <$> (match r.1 with Ok x => deref r.2 x | Raise _ => None end)))
  = (Ok (Whole 1), Some [3; 2]) /\
  (let r := clean example_externals 0 false example_world_flat in
   (r.1, shape <$> (match r.1 with Ok x => deref r.2 x | Raise _ => None end)))
  = (Ok (Row 1 0), Some [2]) /\
  (let r := clean example_externals 0 true
              (World (with_detrend initial_globals true) [example_B_full]) in
   (r.1, shape <$> (match r.1 with Ok x => deref r.2 x | Raise _ => None end)))
  = (Ok (Whole 3), Some [3; 2]).
Proof. repeat split; vm_compute; reflexivity. Qed.

(** C3 (counterexample).  A recording of two sensors without samples, of
    shape (2, 3, 0) or (2, 0): [clean] does not return an array; it raises
    [ZeroDivisionError], from [lowf = 2 * bpo * fs / length] of the first
    [clusterNSGT]. *)
Example clean_raises_on_a_recording_without_samples :
  (clean example_externals 0 true (World initial_globals [NdArray [2; 3; 0] []])).1
  = Raise ZeroDivisionError /\
  (clean example_externals 0 false (World initial_globals [NdArray [2; 0] []])).1
  = Raise ZeroDivisionError.
Proof. split; vm_compute; reflexivity. Qed.


(** * Further properties of the module *)

(** ** The dictionary operations *)

Lemma od_get_set_eq (d : odict) (k : nat) (v : cvec) :
  od_get (od_set d k v) k = Some v.
Proof.
  induction d as [|[k' v'] d IH]; simpl.
  - rewrite Nat.eqb_refl. reflexivity.
  - destruct (Nat.eqb k' k) eqn:Hk; simpl; rewrite Hk; [reflexivity|exact IH].
Qed.

Lemma od_get_set_ne (d : odict) (k k' : nat) (v : cvec) :
  k <> k' -> od_get (od_set d k v) k' = od_get d k'.
Proof.
  intros Hne. induction d as [|[k0 v0] d IH]; simpl.
  - destruct (Nat.eqb_spec k k'); [congruence|reflexivity].
  - destruct (Nat.eqb_spec k0 k) as [->|Hk]; simpl.
    + destruct (Nat.eqb_spec k k'); [congruence|reflexivity].
    + destruct (Nat.eqb k0 k'); [reflexivity|exact IH].
Qed.

Lemma od_get_Some_key (d : odict) (k : nat) (v : cvec) :
  od_get d k = Some v -> k ∈ od_keys d.
Proof.
  induction d as [|[k' v'] d IH]; simpl; [discriminate|].
  destruct (Nat.eqb_spec k' k) as [->|Hk]; intros H.
  - left.
  - right. apply IH, H.
Qed.

Lemma od_get_Some_value (d : odict) (k : nat) (v : cvec) :
  od_get d k = Some v -> v ∈ od_values d.
Proof.
  induction d as [|[k' v'] d IH]; simpl; [discriminate|].
  destruct (Nat.eqb k' k); intros H.
  - injection H as <-. left.
  - right. apply IH, H.
Qed.

Lemma od_keys_set_present (d : odict) (k : nat) (v x : cvec) :
  od_get d k = Some x -> od_keys (od_set d k v) = od_keys d.
Proof.
  induction d as [|[k' v'] d IH]; simpl; [discriminate|].
  destruct (Nat.eqb k' k) eqn:Hk; intros H; simpl; [reflexivity|].
  f_equal. apply IH, H.
Qed.

Lemma od_set_absent (d : odict) (k : nat) (v : cvec) :
  od_get d k = None -> od_set d k v = d ++ [(k, v)].
Proof.
  induction d as [|[k' v'] d IH]; simpl; [reflexivity|].
  destruct (Nat.eqb k' k); [discriminate|]. intros H. f_equal. apply IH, H.
Qed.

Lemma od_keys_set (d : odict) (k : nat) (v : cvec) :
  od_keys (od_set d k v) = od_keys d \/ od_keys (od_set d k v) = od_keys d ++ [k].
Proof.
  destruct (od_get d k) as [x|] eqn:H.
  - left. eapply od_keys_set_present, H.
  - right. rewrite od_set_absent by exact H. unfold od_keys. rewrite map_app. reflexivity.
Qed.

Lemma od_keys_length (d : odict) : length (od_keys d) = length d.
Proof. unfold od_keys. apply length_map. Qed.

Lemma keys_contiguous_fresh (d : odict) :
  keys_contiguous d -> od_get d (length d) = None.
Proof.
  intros Hk. destruct (od_get d (length d)) as [x|] eqn:H; [|reflexivity].
  apply od_get_Some_key in H. rewrite Hk in H. apply elem_of_seq in H. lia.
Qed.

Lemma keys_contiguous_lt (d : odict) (k : nat) (v : cvec) :
  keys_contiguous d -> od_get d k = Some v -> k < length d.
Proof.
  intros Hk H. apply od_get_Some_key in H. rewrite Hk in H. apply elem_of_seq in H. lia.
Qed.

(** ** One turn of the loop over the new centroids *)

Section AbsorbFacts.

Variable E : externals.
Variables (tol lr : float) (c : cvec).

Local Abbreviation moved := (moved_centroid E tol lr c).

Lemma match_cluster_keys st k :
  od_keys (match_cluster E tol lr c st k).1 = od_keys st.1.
Proof.
  unfold match_cluster. destruct (od_get st.1 k) as [ex|] eqn:Hex; [|reflexivity].
  destruct (PrimFloat.ltb _ _); [|reflexivity]. simpl.
  destruct (negb _); [|reflexivity]. eapply od_keys_set_present, Hex.
Qed.

Lemma match_cluster_other st k k' :
  k <> k' -> od_get (match_cluster E tol lr c st k).1 k' = od_get st.1 k'.
Proof.
  intros Hne. unfold match_cluster. destruct (od_get st.1 k) as [ex|]; [|reflexivity].
  destruct (PrimFloat.ltb _ _); [|reflexivity]. simpl.
  destruct (negb _); [|reflexivity]. apply od_get_set_ne, Hne.
Qed.

Lemma match_cluster_same st k ex :
  od_get st.1 k = Some ex ->
  od_get (match_cluster E tol lr c st k).1 k = Some (moved k ex).
Proof.
  intros Hex. unfold match_cluster, moved_centroid, within_tolerance. rewrite Hex.
  destruct (PrimFloat.ltb _ _); simpl; [|exact Hex].
  destruct (negb _); [apply od_get_set_eq|exact Hex].
Qed.

Lemma match_cluster_flag st k ex :
  od_get st.1 k = Some ex ->
  (match_cluster E tol lr c st k).2 = st.2 && negb (within_tolerance E tol ex c).
Proof.
  intros Hex. unfold match_cluster, within_tolerance. rewrite Hex.
  destruct (PrimFloat.ltb _ _); simpl; [rewrite andb_false_r|rewrite andb_true_r]; reflexivity.
Qed.

Lemma scan_keys ks st :
  od_keys (fold_left (match_cluster E tol lr c) ks st).1 = od_keys st.1.
Proof.
  revert st. induction ks as [|k ks IH]; intros st; simpl; [reflexivity|].
  rewrite IH. apply match_cluster_keys.
Qed.

Lemma scan_other ks st k' :
  k' ∉ ks -> od_get (fold_left (match_cluster E tol lr c) ks st).1 k' = od_get st.1 k'.
Proof.
  revert st. induction ks as [|k ks IH]; intros st Hk; simpl; [reflexivity|].
  apply not_elem_of_cons in Hk as [Hne Hk].
  rewrite IH by exact Hk. apply match_cluster_other. congruence.
Qed.

Lemma scan_same ks st k ex :
  NoDup ks -> k ∈ ks -> od_get st.1 k = Some ex ->
  od_get (fold_left (match_cluster E tol lr c) ks st).1 k = Some (moved k ex).
Proof.
  revert st. induction ks as [|k0 ks IH]; intros st Hnd Hk Hex; simpl.
  - apply elem_of_nil in Hk. contradiction.
  - apply NoDup_cons in Hnd as [Hk0 Hnd].
    apply elem_of_cons in Hk as [->|Hk].
    + rewrite scan_other by exact Hk0. apply match_cluster_same, Hex.
    + apply IH; [exact Hnd|exact Hk|].
      rewrite match_cluster_other; [exact Hex|]. intros ->. contradiction.
Qed.

Lemma scan_flag_false ks st :
  st.2 = false -> (fold_left (match_cluster E tol lr c) ks st).2 = false.
Proof.
  revert st. induction ks as [|k ks IH]; intros st H; simpl; [exact H|].
  apply IH. unfold match_cluster. destruct (od_get st.1 k); [|exact H].
  destruct (PrimFloat.ltb _ _); [reflexivity|exact H].
Qed.

Lemma scan_flag_matched ks st k ex :
  NoDup ks -> k ∈ ks -> od_get st.1 k = Some ex -> within_tolerance E tol ex c = true ->
  (fold_left (match_cluster E tol lr c) ks st).2 = false.
Proof.
  revert st. induction ks as [|k0 ks IH]; intros st Hnd Hk Hex Hm; simpl.
  - apply elem_of_nil in Hk. contradiction.
  - apply NoDup_cons in Hnd as [Hk0 Hnd].
    apply elem_of_cons in Hk as [->|Hk].
    + apply scan_flag_false. rewrite (match_cluster_flag st k0 ex Hex), Hm.
      apply andb_false_r.
    + eapply IH; [exact Hnd|exact Hk| |exact Hm].
      rewrite match_cluster_other; [exact Hex|]. intros ->. contradiction.
Qed.

Lemma scan_unmatched ks st :
  (forall k ex, k ∈ ks -> od_get st.1 k = Some ex -> within_tolerance E tol ex c = false) ->
  fold_left (match_cluster E tol lr c) ks st = st.
Proof.
  revert st. induction ks as [|k ks IH]; intros st H; simpl; [reflexivity|].
  assert (Hk : match_cluster E tol lr c st k = st).
  { unfold match_cluster. destruct (od_get st.1 k) as [ex|] eqn:Hex; [|reflexivity].
    assert (Hin : k ∈ k :: ks) by left.
    pose proof (H k ex Hin Hex) as Hm.
    unfold within_tolerance in Hm. rewrite Hm. reflexivity. }
  rewrite Hk. apply IH. intros k' ex Hk' Hex. apply (H k' ex); [right; exact Hk'|exact Hex].
Qed.

Lemma keys_contiguous_NoDup d : keys_contiguous d -> NoDup (od_keys d).
Proof. intros ->. apply NoDup_seq. Qed.

Lemma absorb_keys_contiguous d :
  keys_contiguous d -> keys_contiguous (absorb E tol lr d c).
Proof.
  intros Hk. unfold absorb.
  pose proof (scan_keys (od_keys d) (d, true)) as Hkeys. simpl in Hkeys.
  destruct (fold_left _ _ _) as [d1 newC]. simpl in *.
  assert (Hk1 : keys_contiguous d1).
  { unfold keys_contiguous. rewrite Hkeys, <- (od_keys_length d1), Hkeys, od_keys_length.
    exact Hk. }
  destruct newC; [|exact Hk1].
  rewrite od_set_absent by (apply keys_contiguous_fresh, Hk1).
  unfold keys_contiguous, od_keys in *. rewrite map_app, length_app. simpl.
  rewrite Hk1, Nat.add_1_r, seq_S. reflexivity.
Qed.

Lemma absorb_lookup d k ex :
  keys_contiguous d -> od_get d k = Some ex ->
  od_get (absorb E tol lr d c) k = Some (moved k ex).
Proof.
  intros Hk Hex. unfold absorb.
  pose proof (scan_keys (od_keys d) (d, true)) as Hkeys.
  pose proof (scan_same (od_keys d) (d, true) k ex (keys_contiguous_NoDup d Hk)
                (od_get_Some_key d k ex Hex) Hex) as Hget.
  destruct (fold_left _ _ _) as [d1 newC]. simpl in *.
  destruct newC; [|exact Hget].
  rewrite od_get_set_ne; [exact Hget|].
  pose proof (keys_contiguous_lt d k ex Hk Hex) as Hlt.
  rewrite <- (od_keys_length d1), Hkeys, od_keys_length. lia.
Qed.

Lemma absorb_unmatched d :
  keys_contiguous d ->
  (forall k ex, od_get d k = Some ex -> within_tolerance E tol ex c = false) ->
  absorb E tol lr d c = d ++ [(length d, c)].
Proof.
  intros Hk Hnone. unfold absorb. rewrite scan_unmatched.
  - simpl. apply od_set_absent, keys_contiguous_fresh, Hk.
  - intros k ex _ Hex. apply (Hnone k ex Hex).
Qed.

Lemma absorb_matched d k ex :
  keys_contiguous d -> od_get d k = Some ex -> within_tolerance E tol ex c = true ->
  od_keys (absorb E tol lr d c) = od_keys d.
Proof.
  intros Hk Hex Hm. unfold absorb.
  pose proof (scan_keys (od_keys d) (d, true)) as Hkeys.
  pose proof (scan_flag_matched (od_keys d) (d, true) k ex (keys_contiguous_NoDup d Hk)
                (od_get_Some_key d k ex Hex) Hex Hm) as Hflag.
  destruct (fold_left _ _ _) as [d1 newC]. simpl in *. subst newC. exact Hkeys.
Qed.

End AbsorbFacts.

(** ** [updateCentroids] as a whole *)

Section UpdateFacts.

Variable E : externals.

Lemma column_of_singletons (c : cvec) : column (map (fun z => [z]) c) 0 = c.
Proof. unfold column. induction c as [|z c IH]; simpl; [reflexivity|]. f_equal. exact IH. Qed.

Lemma updateCentroids_one_column (c : cvec) (lr : float) (g : globals) :
  c <> [] ->
  (updateCentroids E (column_matrix c) lr g).1
  = with_centroids g (absorb E (sspTol g) lr (clusterCentroids g) c).
Proof.
  intros Hc. unfold updateCentroids. cbn [fst].
  assert (Hsize : Nat.ltb 0 (size (transpose (column_matrix c))) = true).
  { apply Nat.ltb_lt. unfold size, transpose, column_matrix. simpl.
    destruct c; [congruence|simpl; lia]. }
  rewrite Hsize. unfold iter_rows, transpose, column_matrix. simpl.
  rewrite column_of_singletons. reflexivity.
Qed.

Lemma absorb_all_keys_contiguous tol lr cs d :
  keys_contiguous d -> keys_contiguous (fold_left (absorb E tol lr) cs d).
Proof.
  revert d. induction cs as [|c cs IH]; intros d H; simpl; [exact H|].
  apply IH, absorb_keys_contiguous, H.
Qed.

Lemma updateCentroids_keys_contiguous nc lr g :
  keys_contiguous (clusterCentroids g) ->
  keys_contiguous (clusterCentroids (updateCentroids E nc lr g).1).
Proof.
  intros H. unfold updateCentroids. simpl. destruct (Nat.ltb 0 _); [|exact H].
  simpl. apply absorb_all_keys_contiguous, H.
Qed.

(** X1.  After [setMagnetometers], whatever [updateCentroids] calls follow,
    the keys of the dictionary are 0, 1, ..., len-1 in insertion order: the
    key [len(clusterCentroids)] under which a new centroid is stored is
    never taken. *)
Theorem dictionary_keys_stay_contiguous :
  forall (n : nat) (g : globals) (calls : list (matrix * float)),
    keys_contiguous (clusterCentroids (run_updates E calls (setMagnetometers n g))).
Proof.
  intros n g calls. unfold run_updates.
  assert (H : keys_contiguous (clusterCentroids (setMagnetometers n g))) by reflexivity.
  revert H. generalize (setMagnetometers n g). clear g.
  induction calls as [|call calls IH]; intros g H; simpl; [exact H|].
  apply IH, updateCentroids_keys_contiguous, H.
Qed.

Lemma absorb_appends tol lr d c :
  exists new, od_keys (absorb E tol lr d c) = od_keys d ++ new /\ length new <= 1.
Proof.
  unfold absorb.
  pose proof (scan_keys E tol lr c (od_keys d) (d, true)) as Hkeys.
  destruct (fold_left _ _ _) as [d1 newC]. simpl in *.
  destruct newC.
  - destruct (od_keys_set d1 (length d1) c) as [H|H]; rewrite H, Hkeys.
    + exists []. rewrite app_nil_r. split; [reflexivity|simpl; lia].
    + eexists. split; [reflexivity|simpl; lia].
  - exists []. rewrite app_nil_r. split; [exact Hkeys|simpl; lia].
Qed.

Lemma absorb_all_appends tol lr cs d :
  exists new, od_keys (fold_left (absorb E tol lr) cs d) = od_keys d ++ new /\
              length new <= length cs.
Proof.
  revert d. induction cs as [|c cs IH]; intros d; simpl.
  - exists []. rewrite app_nil_r. split; [reflexivity|simpl; lia].
  - destruct (absorb_appends tol lr d c) as [new1 [H1 Hl1]].
    destruct (IH (absorb E tol lr d c)) as [new2 [H2 Hl2]].
    exists (new1 ++ new2). rewrite H2, H1, <- app_assoc. split; [reflexivity|].
    rewrite length_app. lia.
Qed.

(** X2.  A call of [updateCentroids] keeps every key of the dictionary, in
    its place, and adds at most one key for each column of the matrix it
    is given: centroids are never removed or reordered. *)
Theorem updateCentroids_only_appends :
  forall (nc : matrix) (lr : float) (g : globals),
    exists new,
      od_keys (clusterCentroids (updateCentroids E nc lr g).1)
      = od_keys (clusterCentroids g) ++ new /\
      length new <= ncols nc.
Proof.
  intros nc lr g. unfold updateCentroids. simpl. destruct (Nat.ltb 0 _).
  - simpl.
    destruct (absorb_all_appends (sspTol g) lr (iter_rows (transpose nc)) (clusterCentroids g))
      as [new [H Hl]].
    exists new. split; [exact H|].
    rewrite iter_rows_transpose, length_map, length_seq in Hl. exact Hl.
  - exists []. rewrite app_nil_r. split; [reflexivity|simpl; lia].
Qed.

(** X3.  For one new centroid [c] of the length of the stored centroids:
    a stored centroid whose angle to [c] is below the tolerance, the
    ambient one under key 0 apart, becomes
    [existing + learnRate * (c - existing)], a vector of the same length;
    every other stored centroid, and the ambient one in any case, stays as
    it is. *)
Theorem updateCentroids_moves_the_centroids_within_tolerance :
  forall (c : cvec) (lr : float) (g : globals) (k : nat) (ex : cvec),
    keys_contiguous (clusterCentroids g) ->
    fits_dictionary (clusterCentroids g) c ->
    c <> [] ->
    od_get (clusterCentroids g) k = Some ex ->
    od_get (clusterCentroids (updateCentroids E (column_matrix c) lr g).1) k
    = Some (if within_tolerance E (sspTol g) ex c && negb (Nat.eqb k 0)
            then blend lr ex c else ex) /\
    length (blend lr ex c) = length ex.
Proof.
  intros c lr g k ex Hk Hfit Hc Hex. split.
  - rewrite updateCentroids_one_column by exact Hc.
    simpl. apply absorb_lookup; assumption.
  - unfold blend. rewrite length_zip_with.
    assert (Hlen : length ex = length c).
    { unfold fits_dictionary in Hfit. rewrite Forall_forall in Hfit. apply Hfit.
      eapply od_get_Some_value, Hex. }
    lia.
Qed.

(** X4.  A new centroid of the length of the stored centroids whose angle
    to every one of them is at least the tolerance is stored, as it is,
    under the next key, after all the others, which stay as they are. *)
Theorem updateCentroids_appends_an_unmatched_centroid :
  forall (c : cvec) (lr : float) (g : globals),
    keys_contiguous (clusterCentroids g) ->
    fits_dictionary (clusterCentroids g) c ->
    c <> [] ->
    (forall k ex, od_get (clusterCentroids g) k = Some ex ->
                  within_tolerance E (sspTol g) ex c = false) ->
    clusterCentroids (updateCentroids E (column_matrix c) lr g).1
    = clusterCentroids g ++ [(length (clusterCentroids g), c)].
Proof.
  intros c lr g Hk _ Hc Hnone. rewrite updateCentroids_one_column by exact Hc.
  simpl. apply absorb_unmatched; assumption.
Qed.

(** X5.  A new centroid within the tolerance of some stored centroid, the
    ambient one included, adds no entry: the dictionary keeps its keys. *)
Theorem updateCentroids_adds_no_entry_for_a_matched_centroid :
  forall (c : cvec) (lr : float) (g : globals) (k : nat) (ex : cvec),
    keys_contiguous (clusterCentroids g) ->
    c <> [] ->
    od_get (clusterCentroids g) k = Some ex ->
    within_tolerance E (sspTol g) ex c = true ->
    od_keys (clusterCentroids (updateCentroids E (column_matrix c) lr g).1)
    = od_keys (clusterCentroids g).
Proof.
  intros c lr g k ex Hk Hc Hex Hm. rewrite updateCentroids_one_column by exact Hc.
  simpl. eapply absorb_matched; eassumption.
Qed.

End UpdateFacts.

Lemma updateCentroids_moves_example :
  od_get (clusterCentroids
            (updateCentroids (with_arccos example_externals 0)
               (column_matrix [C128.c0; C128.c1; C128.c0]) 0.5 two_centroids).1) 1
  = Some (if within_tolerance (with_arccos example_externals 0) (sspTol two_centroids)
               [C128.c1; C128.c0; C128.c0] [C128.c0; C128.c1; C128.c0]
             && negb (Nat.eqb 1 0)
          then blend 0.5 [C128.c1; C128.c0; C128.c0] [C128.c0; C128.c1; C128.c0]
          else [C128.c1; C128.c0; C128.c0]) /\
  length (blend 0.5 [C128.c1; C128.c0; C128.c0] [C128.c0; C128.c1; C128.c0])
  = length [C128.c1; C128.c0; C128.c0].
Proof.
  apply (updateCentroids_moves_the_centroids_within_tolerance
           (with_arccos example_externals 0) [C128.c0; C128.c1; C128.c0] 0.5
           two_centroids 1 [C128.c1; C128.c0; C128.c0]).
  - reflexivity.
  - repeat constructor.
  - discriminate.
  - reflexivity.
Defined.

(** In that example the stored centroid (1, 0, 0) moves half of the way to
    the observation (0, 1, 0), the ambient centroid stays, and no entry is
    added. *)
Example updateCentroids_moves_value :
  clusterCentroids
    (updateCentroids (with_arccos example_externals 0)
       (column_matrix [C128.c0; C128.c1; C128.c0]) 0.5 two_centroids).1
  = [(0, np_ones 3); (1, [Cx 0.5 0; Cx 0.5 0; C128.c0])].
Proof. vm_compute. reflexivity. Qed.

Lemma updateCentroids_appends_example :
  clusterCentroids
    (updateCentroids example_externals (column_matrix [C128.c0; C128.c1; C128.c0]) 0.5
       two_centroids).1
  = clusterCentroids two_centroids
      ++ [(length (clusterCentroids two_centroids), [C128.c0; C128.c1; C128.c0])].
Proof.
  apply (updateCentroids_appends_an_unmatched_centroid example_externals
           [C128.c0; C128.c1; C128.c0] 0.5 two_centroids).
  - reflexivity.
  - repeat constructor.
  - discriminate.
  - intros k ex _. reflexivity.
Defined.

Lemma updateCentroids_matched_example :
  od_keys (clusterCentroids
             (updateCentroids (with_arccos example_externals 0)
                (column_matrix [C128.c0; C128.c1; C128.c0]) 0.5 two_centroids).1)
  = od_keys (clusterCentroids two_centroids).
Proof.
  apply (updateCentroids_adds_no_entry_for_a_matched_centroid
           (with_arccos example_externals 0) [C128.c0; C128.c1; C128.c0] 0.5
           two_centroids 0 (np_ones 3)).
  - reflexivity.
  - discriminate.
  - reflexivity.
  - reflexivity.
Defined.

(** ** Cutting the demixed rows into subbands *)

Lemma split_subbands_app (sbs : list cvec) (rest : cvec) :
  split_subbands (map (fun sb : cvec => length sb) sbs) (concat sbs ++ rest) = sbs.
Proof.
  induction sbs as [|sb sbs IH]; simpl; [reflexivity|].
  rewrite <- app_assoc, take_app_length, drop_app_length. f_equal. exact IH.
Qed.

(** X6.  The inner loop of [demixNSGT] undoes [np.hstack]: cutting the
    concatenation of the subbands of a channel at the recorded lengths
    gives the subbands back. *)
Theorem split_subbands_inverts_hstack :
  forall sbs : list cvec,
    split_subbands (map (fun sb : cvec => length sb) sbs) (concat sbs) = sbs.
Proof.
  intros sbs. rewrite <- (app_nil_r (concat sbs)). apply split_subbands_app.
Qed.

Lemma split_subbands_lengths (shapes : list nat) (arr : cvec) :
  sum_list shapes <= length arr ->
  map (fun sb : cvec => length sb) (split_subbands shapes arr) = shapes /\
  concat (split_subbands shapes arr) = take (sum_list shapes) arr.
Proof.
  revert arr. induction shapes as [|n shapes IH]; intros arr Hlen; simpl in *.
  - split; [reflexivity|]. rewrite take_0. reflexivity.
  - destruct (IH (drop n arr)) as [IH1 IH2]; [rewrite length_drop; lia|].
    split.
    + rewrite length_take, IH1. f_equal. lia.
    + rewrite IH2. apply take_take_drop.
Qed.

(** X7.  A demixed row as long as the recorded lengths together is cut
    without loss: the pieces have the recorded lengths and, put together
    again, are the row. *)
Theorem split_subbands_partitions_the_row :
  forall (shapes : list nat) (arr : cvec),
    length arr = sum_list shapes ->
    map (fun sb : cvec => length sb) (split_subbands shapes arr) = shapes /\
    concat (split_subbands shapes arr) = arr.
Proof.
  intros shapes arr Hlen.
  destruct (split_subbands_lengths shapes arr) as [H1 H2]; [lia|].
  split; [exact H1|]. rewrite H2, <- Hlen. apply firstn_all.
Qed.

Lemma split_subbands_partition_example :
  map (fun sb : cvec => length sb)
      (split_subbands [2; 0; 1] [Cx 1 0; Cx 2 0; Cx 3 0]) = [2; 0; 1] /\
  concat (split_subbands [2; 0; 1] [Cx 1 0; Cx 2 0; Cx 3 0]) = [Cx 1 0; Cx 2 0; Cx 3 0].
Proof.
  apply (split_subbands_partitions_the_row [2; 0; 1] [Cx 1 0; Cx 2 0; Cx 3 0]).
  reflexivity.
Defined.

(** ** The point filters keep whole bins *)

Lemma mask_select_nil_r {A} (mask : list bool) : mask_select mask (@nil A) = [].
Proof. destruct mask; reflexivity. Qed.

Lemma mask_select_map {A B} (f : A -> B) (mask : list bool) (l : list A) :
  mask_select mask (map f l) = map f (mask_select mask l).
Proof.
  revert l. induction mask as [|m mask IH]; intros [|a l]; simpl; try reflexivity.
  destruct m; simpl; rewrite IH; reflexivity.
Qed.

Lemma mask_select_test {A} (test : A -> bool) (l : list A) :
  mask_select (map test l) l = List.filter test l.
Proof.
  induction l as [|a l IH]; simpl; [reflexivity|].
  destruct (test a); rewrite IH; reflexivity.
Qed.

Lemma column_tail (rs : list cvec) (j : nat) :
  column rs (S j) = column (map (drop 1) rs) j.
Proof.
  unfold column. rewrite map_map. apply map_ext. intros r. rewrite lookup_drop. reflexivity.
Qed.

Lemma columns_S (rs : list cvec) (n : nat) :
  columns rs (S n) = column rs 0 :: columns (map (drop 1) rs) n.
Proof.
  unfold columns. simpl. f_equal. rewrite <- seq_shift, map_map.
  apply map_ext. intros j. apply column_tail.
Qed.

Lemma columns_take (m : nat) (rs : list cvec) (n : nat) :
  columns (take m rs) n = map (take m) (columns rs n).
Proof.
  unfold columns. rewrite map_map. apply map_ext. intros j.
  unfold column. symmetry. apply firstn_map.
Qed.

(** Selecting the same entries of every row selects whole columns. *)
Lemma columns_mask_select (mask : list bool) (rs : list cvec) :
  Forall (fun r => length r = length mask) rs ->
  columns (map (mask_select mask) rs) (length (filter (fun b : bool => b) mask))
  = mask_select mask (columns rs (length mask)).
Proof.
  revert rs. induction mask as [|m mask IH]; intros rs Hrs.
  - reflexivity.
  - assert (Htl : Forall (fun r => length r = length mask) (map (drop 1) rs)).
    { apply Forall_map. eapply Forall_impl; [exact Hrs|]. intros r Hr. simpl in *.
      rewrite length_drop. simpl in Hr. lia. }
    cbn [length]. rewrite columns_S. destruct m.
    + assert (Hsel : map (mask_select (true :: mask)) rs
                     = map (fun r => default C128.c0 (r !! 0)
                                     :: mask_select mask (drop 1 r)) rs).
      { apply map_ext_Forall. eapply Forall_impl; [exact Hrs|]. intros [|a r] Hr.
        - simpl in Hr. lia.
        - simpl. rewrite drop_0. reflexivity. }
      rewrite Hsel. rewrite filter_cons_True by exact I. cbn [length mask_select].
      rewrite columns_S. f_equal.
      * unfold column. rewrite map_map. reflexivity.
      * rewrite <- (IH _ Htl). f_equal. rewrite !map_map. apply map_ext.
        intros r. reflexivity.
    + assert (Hsel : map (mask_select (false :: mask)) rs
                     = map (mask_select mask) (map (drop 1) rs)).
      { rewrite map_map. apply map_ext. intros [|a r]; simpl.
        - rewrite mask_select_nil_r. reflexivity.
        - rewrite drop_0. reflexivity. }
      rewrite Hsel. rewrite filter_cons_False by (intros []). cbn [mask_select].
      apply IH, Htl.
Qed.

(** The rows [first_n] builds from a mask that tests the columns are the
    rows of the columns that pass the test. *)
Lemma masked_rows_columns (m : nat) (test : cvec -> bool) (rs : list cvec) (n : nat) :
  Forall (fun r => length r = n) rs ->
  columns (map (mask_select (map test (columns rs n))) (take m rs))
          (length (filter (fun b : bool => b) (map test (columns rs n))))
  = map (take m) (List.filter test (columns rs n)).
Proof.
  intros Hrs.
  assert (Hlen : length (map test (columns rs n)) = n).
  { unfold columns. rewrite !length_map, length_seq. reflexivity. }
  rewrite columns_mask_select.
  - rewrite Hlen, columns_take, mask_select_map, mask_select_test. reflexivity.
  - rewrite Hlen. apply Forall_take, Hrs.
Qed.

(** X8.  When [filterMagnitude] returns, the bins (columns) of its result
    are the bins of [B] whose norm over all rows of [B] exceeds
    [lambda_ * sigma], in their order, each cut to its first
    [magnetometers] entries. *)
Theorem filterMagnitude_keeps_the_strong_bins :
  forall (E : externals) (g : globals) (B B_m : matrix),
    wf_matrix B ->
    filterMagnitude E g B = Ok B_m ->
    columns (rows B_m) (ncols B_m)
    = map (take (magnetometers g))
          (List.filter (filterMagnitude_test E g) (columns (rows B) (ncols B))).
Proof.
  intros E g B B_m [_ Hrs] H. unfold filterMagnitude, first_n in H.
  destruct (Nat.leb _ _); [|discriminate]. cbn [obind] in H.
  injection H as <-. cbn [rows ncols].
  assert (Hmask : map (fun x => PrimFloat.ltb (lambda_ g * sigma g)%float x)
                      (map (fun j => F64.norm (np_abs E (column (rows B) j)))
                           (seq 0 (ncols B)))
                  = map (filterMagnitude_test E g) (columns (rows B) (ncols B))).
  { unfold columns. rewrite !map_map. reflexivity. }
  rewrite Hmask.
  apply (masked_rows_columns (magnetometers g) (filterMagnitude_test E g)), Hrs.
Qed.

Lemma filterMagnitude_example :
  columns (rows (Mat 2 1 [[Cx 300 0]; [Cx 400 0]])) (ncols (Mat 2 1 [[Cx 300 0]; [Cx 400 0]]))
  = map (take (magnetometers (setMagnetometers 2 initial_globals)))
        (List.filter (filterMagnitude_test example_externals
                        (setMagnetometers 2 initial_globals))
           (columns (rows (Mat 2 2 [[Cx 300 0; Cx 1 0]; [Cx 400 0; Cx 1 0]]))
                    (ncols (Mat 2 2 [[Cx 300 0; Cx 1 0]; [Cx 400 0; Cx 1 0]])))).
Proof.
  apply (filterMagnitude_keeps_the_strong_bins example_externals
           (setMagnetometers 2 initial_globals)
           (Mat 2 2 [[Cx 300 0; Cx 1 0]; [Cx 400 0; Cx 1 0]])
           (Mat 2 1 [[Cx 300 0]; [Cx 400 0]])).
  - split; [reflexivity|]. repeat constructor.
  - vm_compute. reflexivity.
Defined.

(** X9.  When [filterSSP] returns, the bins of its result are the bins of
    [B] that pass its single-source test, in their order, each cut to its
    first [magnetometers] entries. *)
Theorem filterSSP_keeps_the_single_source_bins :
  forall (E : externals) (g : globals) (B B_s : matrix),
    wf_matrix B ->
    filterSSP E g B = Ok B_s ->
    columns (rows B_s) (ncols B_s)
    = map (take (magnetometers g))
          (List.filter (filterSSP_test E g) (columns (rows B) (ncols B))).
Proof.
  intros E g B B_s [_ Hrs] H. unfold filterSSP, first_n, SSP_Bools in H.
  destruct (Nat.leb _ _); [|discriminate]. cbn [obind] in H.
  injection H as <-. cbn [rows ncols].
  assert (Hmask : map (fun j => filterSSP_test E g (column (rows B) j)) (seq 0 (ncols B))
                  = map (filterSSP_test E g) (columns (rows B) (ncols B))).
  { unfold columns. rewrite map_map. reflexivity. }
  rewrite Hmask.
  apply (masked_rows_columns (magnetometers g) (filterSSP_test E g)), Hrs.
Qed.

Lemma filterSSP_example :
  columns (rows (Mat 2 1 [[Cx 3 3]; [Cx 4 4]])) (ncols (Mat 2 1 [[Cx 3 3]; [Cx 4 4]]))
  = map (take (magnetometers (setMagnetometers 2 initial_globals)))
        (List.filter (filterSSP_test example_externals (setMagnetometers 2 initial_globals))
           (columns (rows (Mat 2 2 [[Cx 3 3; Cx 1 0]; [Cx 4 4; Cx 0 1]]))
                    (ncols (Mat 2 2 [[Cx 3 3; Cx 1 0]; [Cx 4 4; Cx 0 1]])))).
Proof.
  apply (filterSSP_keeps_the_single_source_bins example_externals
           (setMagnetometers 2 initial_globals)
           (Mat 2 2 [[Cx 3 3; Cx 1 0]; [Cx 4 4; Cx 0 1]])
           (Mat 2 1 [[Cx 3 3]; [Cx 4 4]])).
  - split; [reflexivity|]. repeat constructor.
  - vm_compute. reflexivity.
Defined.

(** ** The loop of [processData] *)

(** X10.  With [cs_iters] at zero or below the loop body never runs and
    [x.value] stays [None].  For a bin that [b.value = data] accepts (of
    the length of [b], without a NaN or an infinite part) and a parameter
    [A] of the shape (magnetometers, n_clusters), [processData] returns
    [None] when no boom is set or the boom index is 0, and raises
    [TypeError] on [x.value[0]] otherwise, whatever the solver would do. *)
Theorem processData_without_iterations :
  forall (E : externals) (g : globals) (A : matrix) (n_clusters : nat) (data : cvec),
    (cs_iters g <= 0)%Z ->
    0 < n_clusters ->
    0 < magnetometers g ->
    length data = magnetometers g ->
    forallb C128.is_finite data = true ->
    mixing_shape g A n_clusters ->
    processData E g A n_clusters data
    = match boom g with
      | Some i => if (i =? 0)%Z then Ok None else Raise TypeError
      | None => Ok None
      end.
Proof.
  intros E g A n data Hit _ _ Hlen Hfin _. unfold processData, processData_loop.
  rewrite Hlen, Nat.eqb_refl, Hfin. cbn [negb].
  destruct (Z.to_nat (cs_iters g)) eqn:Hn; [|lia].
  cbn [cs_loop obind]. unfold boom_check. cbn [x_value cs_initial].
  destruct (boom g) as [i|]; [|reflexivity].
  destruct (i =? 0)%Z; reflexivity.
Qed.

Lemma processData_without_iterations_example :
  processData example_externals (with_cs_iters (with_boom initial_globals (Some 1%Z)) 0)
    example_A 2 [Cx 3 4; Cx 1 0; Cx 0 2]
  = match boom (with_cs_iters (with_boom initial_globals (Some 1%Z)) 0) with
    | Some i => if (i =? 0)%Z then Ok None else Raise TypeError
    | None => Ok None
    end.
Proof.
  apply (processData_without_iterations example_externals
           (with_cs_iters (with_boom initial_globals (Some 1%Z)) 0) example_A 2
           [Cx 3 4; Cx 1 0; Cx 0 2]).
  - simpl. lia.
  - lia.
  - simpl. lia.
  - reflexivity.
  - reflexivity.
  - split; reflexivity.
Defined.

Lemma clip_within (x : float) :
  PrimFloat.ltb (F64.clip x 0.01 100) 0.01 = false /\
  PrimFloat.ltb 100 (F64.clip x 0.01 100) = false.
Proof.
  unfold F64.clip. destruct (PrimFloat.ltb x 0.01) eqn:Hlo.
  - split; [apply ltb_irrefl|vm_compute; reflexivity].
  - destruct (PrimFloat.ltb 100 x) eqn:Hhi.
    + split; [vm_compute; reflexivity|apply ltb_irrefl].
    + split; assumption.
Qed.

Lemma initial_weights_ambient_only (n : nat) :
  0 < n -> ambient_weight_only n (w_param (cs_initial n)).
Proof.
  intros Hn. exists (1 / float_of_nat n)%float. split; [|left; reflexivity].
  destruct n; [lia|]. simpl. rewrite Nat.sub_0_r. reflexivity.
Qed.

Section WeightFacts.

Variable E : externals.
Variable A : matrix.
Variable data : cvec.
Variable n : nat.

(** What the loop keeps true of its state. *)
Local Abbreviation weights_ok st :=
  (ambient_weight_only n (w_param st) /\ Forall (ambient_weight_only n) (solved_with st)).

Lemma attempt_weights st r :
  weights_ok st -> attempt E A data n st = Ok r -> weights_ok r.1.
Proof.
  intros [Hw Hlog] H. unfold attempt in H.
  assert (Hlog' : Forall (ambient_weight_only n) (solved_with st ++ [w_param st])).
  { apply Forall_app. split; [exact Hlog|]. constructor; [exact Hw|constructor]. }
  destruct (cvx_solve E A data (w_param st) (promote <$> x_value st)) as [[status v]|e].
  - injection H as <-. split; assumption.
  - destruct (x_value st).
    + injection H as <-. split; assumption.
    + destruct (fallback E n data); [|discriminate].
      injection H as <-. split; assumption.
Qed.

Lemma nudge_weights x st st' :
  weights_ok st -> nudge_ambient_weight E x st = Ok st' -> weights_ok st'.
Proof.
  intros [Hw Hlog] H. unfold nudge_ambient_weight in H.
  destruct (x_abs E x) as [|x0 xt]; [discriminate|].
  destruct (w_is_param st) eqn:Hp.
  - destruct Hw as [w0 [Hw0 _]]. rewrite Hw0 in H. injection H as <-.
    split; [|exact Hlog]. cbn [w_param]. eexists. split; [reflexivity|].
    right. apply clip_within.
  - destruct (inv_pos_value E x); [discriminate|]. injection H as <-.
    split; [exact Hw|exact Hlog].
Qed.

Lemma reweight_weights SSP st st' :
  weights_ok st -> reweight E A SSP st = Ok st' -> weights_ok st'.
Proof.
  intros Hst H. unfold reweight in H.
  destruct SSP; [injection H as <-; exact Hst|].
  destruct (x_value st) as [x|]; [|discriminate].
  destruct (PrimFloat.ltb _ _); [injection H as <-; exact Hst|].
  eapply nudge_weights; eassumption.
Qed.

Lemma cs_loop_weights iters SSP st st' :
  weights_ok st -> cs_loop E iters A data n SSP st = Ok st' -> weights_ok st'.
Proof.
  revert st. induction iters as [|iters IH]; intros st Hst H; simpl in H.
  - injection H as <-. exact Hst.
  - destruct (attempt E A data n st) as [r|e] eqn:Ha; [|discriminate].
    pose proof (attempt_weights st r Hst Ha) as Hr. cbn [obind] in H.
    destruct r.2; [injection H as <-; exact Hr|].
    destruct (reweight E A SSP r.1) as [st1|e] eqn:Hre; [|discriminate].
    cbn [obind] in H. eapply IH; [|exact H].
    eapply reweight_weights; eassumption.
Qed.

End WeightFacts.

(** X11.  Whatever the solver returns, every [problem.solve] of a bin runs
    with weights that differ from the initial [1/n_clusters] at most in
    entry 0, the weight of the ambient field, and that entry, once it has
    been changed, lies between the clip bounds 0.01 and 100 (or is NaN);
    the same holds of the weights the loop ends with. *)
Theorem only_the_ambient_weight_is_adapted :
  forall (E : externals) (g : globals) (A : matrix) (n_clusters : nat)
         (data : cvec) (st : cs_state),
    0 < n_clusters ->
    processData_loop E g A n_clusters data = Ok st ->
    Forall (ambient_weight_only n_clusters) (solved_with st) /\
    ambient_weight_only n_clusters (w_param st).
Proof.
  intros E g A n data st Hn H. unfold processData_loop in H.
  destruct (negb _); [discriminate|]. destruct (negb _); [discriminate|].
  apply cs_loop_weights in H.
  - destruct H as [Hw Hlog]. split; assumption.
  - split; [apply initial_weights_ambient_only, Hn|constructor].
Qed.

Lemma ambient_weight_example :
  exists st,
    processData_loop (stub_externals 0 (stuck_solver [Cx 5 0; C128.c0]))
      initial_globals example_A 2 [Cx 3 4; Cx 1 0; Cx 0 2] = Ok st /\
    Forall (ambient_weight_only 2) (solved_with st) /\
    ambient_weight_only 2 (w_param st).
Proof.
  eexists. split.
  - vm_compute. reflexivity.
  - apply (only_the_ambient_weight_is_adapted
             (stub_externals 0 (stuck_solver [Cx 5 0; C128.c0]))
             initial_globals example_A 2 [Cx 3 4; Cx 1 0; Cx 0 2]).
    + lia.
    + vm_compute. reflexivity.
Defined.

(** On that bin, which is not single-source and whose solution (5, 0) is
    far from an isometry, the name [w] keeps referring to the parameter:
    the ambient weight of the second solve is below the initial 0.5, and
    the other weight stays at 0.5 in all five solves. *)
Example ambient_weight_trace :
  (try! st := processData_loop (stub_externals 0 (stuck_solver [Cx 5 0; C128.c0]))
                initial_globals example_A 2 [Cx 3 4; Cx 1 0; Cx 0 2] in
   Ok (map (fun w => w !! 1) (solved_with st), head (solved_with st),
       match solved_with st !! 1 with
       | Some (w0 :: _) => PrimFloat.ltb w0 0.5
       | _ => false
       end,
       w_is_param st))
  = Ok (replicate 5 (Some 0.5%float), Some [0.5; 0.5]%float, true, true).
Proof. vm_compute. reflexivity. Qed.

(** ** Inputs on which [clean] raises *)

Lemma mbind_raise {A B} (c : M A) (k : A -> M B) (w w' : world) (e : exn) :
  c w = (Raise e, w') -> mbind c k w = (Raise e, w').
Proof. intros H. unfold mbind. rewrite H. reflexivity. Qed.

Lemma clusterNSGT_no_samples (E : externals) (ns : nat) (rs : list cvec) (g : globals) :
  clusterNSGT E (Mat ns 0 rs) g = (Raise ZeroDivisionError, g).
Proof. reflexivity. Qed.

Lemma clean_flat_no_samples (E : externals) (B : nat) (b : ndarray) (ns : nat) (w : world) :
  heap w !! B = Some b -> shape b = [ns; 0] ->
  clean_flat E B w
  = (Raise ZeroDivisionError, World (setMagnetometers ns (glob w)) (heap w)).
Proof.
  intros HB Hshape. unfold clean_flat.
  erewrite mbind_run by (unfold load; rewrite HB; reflexivity).
  erewrite mbind_run by (unfold mlift, shape_first; rewrite Hshape; reflexivity).
  erewrite mbind_run by (unfold on_globals; cbn [fst snd]; reflexivity).
  erewrite mbind_run by (unfold mlift, nd_matrix; rewrite Hshape; reflexivity).
  erewrite mbind_raise; [reflexivity|].
  unfold on_globals. cbn [glob heap]. rewrite clusterNSGT_no_samples. reflexivity.
Qed.

Lemma clean_axis_no_samples (E : externals) (B res : nat) (b : ndarray)
    (ns na : nat) (w : world) :
  heap w !! B = Some b -> shape b = [ns; S na; 0] ->
  clean_axis E B res 0 w
  = (Raise ZeroDivisionError, World (setMagnetometers ns (glob w)) (heap w)).
Proof.
  intros HB Hshape. unfold clean_axis.
  erewrite mbind_run by (unfold load; rewrite HB; reflexivity).
  erewrite mbind_run by (unfold mlift, shape_first; rewrite Hshape; reflexivity).
  erewrite mbind_run by (unfold on_globals; cbn [fst snd]; reflexivity).
  erewrite mbind_run by (unfold mlift, nd_axis; rewrite Hshape; reflexivity).
  erewrite mbind_raise; [reflexivity|].
  unfold on_globals. cbn [glob heap]. rewrite clusterNSGT_no_samples. reflexivity.
Qed.

(** X12.  A recording without samples (last dimension 0), with detrending
    off: [clean] raises [ZeroDivisionError], from [lowf = 2*bpo*fs/length]
    of the first [clusterNSGT], after [setMagnetometers] has reset the
    dictionary for the sensors of [B]. *)
Theorem clean_raises_on_an_empty_recording :
  forall (E : externals) (B0 : nat) (b : ndarray) (ns na : nat)
         (triaxial : bool) (w : world),
    detrend (glob w) = false ->
    heap w !! B0 = Some b ->
    shape b = (if triaxial then [ns; S na; 0] else [ns; 0]) ->
    (clean E B0 triaxial w).1 = Raise ZeroDivisionError /\
    glob (clean E B0 triaxial w).2 = setMagnetometers ns (glob w).
Proof.
  intros E B0 b ns na triaxial w Hdet HB Hshape. unfold clean.
  erewrite mbind_run by (unfold remove_trend; rewrite Hdet; reflexivity).
  cbn [fst snd]. destruct triaxial.
  - assert (H : clean_triaxial E B0 w
                = (Raise ZeroDivisionError,
                   World (setMagnetometers ns (glob w))
                         (heap w ++ [NdArray [3; 0] (replicate (3 * 0) C128.c0)]))).
    { unfold clean_triaxial.
      erewrite mbind_run by (unfold load; rewrite HB; reflexivity).
      erewrite mbind_run by (unfold mlift, shape_last; rewrite Hshape; reflexivity).
      erewrite mbind_run by (unfold alloc; reflexivity).
      apply mbind_raise.
      erewrite (clean_axis_no_samples E B0 _ b ns na); [reflexivity| |exact Hshape].
      cbn [heap]. apply lookup_app_l_Some, HB. }
    rewrite (mbind_raise _ _ _ _ _ H). split; reflexivity.
  - rewrite (mbind_raise _ _ _ _ _ (clean_flat_no_samples E B0 b ns w HB Hshape)).
    split; reflexivity.
Qed.

Lemma clean_empty_recording_example :
  (clean example_externals 0 true (World initial_globals [NdArray [2; 3; 0] []])).1
  = Raise ZeroDivisionError /\
  glob (clean example_externals 0 true (World initial_globals [NdArray [2; 3; 0] []])).2
  = setMagnetometers 2 (glob (World initial_globals [NdArray [2; 3; 0] []])).
Proof.
  apply (clean_raises_on_an_empty_recording example_externals 0 (NdArray [2; 3; 0] [])
           2 2 true (World initial_globals [NdArray [2; 3; 0] []])).
  - reflexivity.
  - reflexivity.
  - reflexivity.
Defined.

(** X13.  A two-dimensional recording passed with [triaxial] left at its
    default, detrending off: [B[:,axis,:]] raises [IndexError] at axis 0;
    by then the array of zeros for the result has been created and
    [setMagnetometers] has reset the dictionary. *)
Theorem clean_triaxial_raises_on_a_flat_recording :
  forall (E : externals) (B0 : nat) (b : ndarray) (ns n : nat) (w : world),
    detrend (glob w) = false ->
    heap w !! B0 = Some b ->
    shape b = [ns; n] ->
    clean E B0 true w
    = (Raise IndexError,
       World (setMagnetometers ns (glob w))
             (heap w ++ [NdArray [3; n] (replicate (3 * n) C128.c0)])).
Proof.
  intros E B0 b ns n w Hdet HB Hshape. unfold clean.
  erewrite mbind_run by (unfold remove_trend; rewrite Hdet; reflexivity).
  cbn [fst snd]. erewrite mbind_raise; [reflexivity|].
  unfold clean_triaxial.
  erewrite mbind_run by (unfold load; rewrite HB; reflexivity).
  erewrite mbind_run by (unfold mlift, shape_last; rewrite Hshape; reflexivity).
  erewrite mbind_run by (unfold alloc; reflexivity).
  erewrite mbind_raise; [reflexivity|].
  unfold clean_axis.
  erewrite mbind_run
    by (unfold load; cbn [heap]; rewrite (lookup_app_l_Some _ _ _ _ HB); reflexivity).
  erewrite mbind_run by (unfold mlift, shape_first; rewrite Hshape; reflexivity).
  erewrite mbind_run by (unfold on_globals; cbn [fst snd]; reflexivity).
  erewrite mbind_raise; [reflexivity|].
  unfold mlift, nd_axis. rewrite Hshape. reflexivity.
Qed.

Lemma clean_flat_recording_example :
  clean example_externals 0 true example_world_flat
  = (Raise IndexError,
     World (setMagnetometers 2 (glob example_world_flat))
           (heap example_world_flat ++ [NdArray [3; 2] (replicate (3 * 2) C128.c0)])).
Proof.
  apply (clean_triaxial_raises_on_a_flat_recording example_externals 0 example_B_flat 2 2
           example_world_flat).
  - reflexivity.
  - reflexivity.
  - reflexivity.
Defined.

(** ** What [clean] leaves in the globals *)

Section SettingsFrame.

Variable E : externals.
Variable g0 : globals.

(** The computation [c], returning or raising, keeps the settings of
    [g0]. *)
Local Abbreviation keeps c :=
  (triple (fun w => settings_kept g0 (glob w)) c
          (fun _ w => settings_kept g0 (glob w))
          (fun w => settings_kept g0 (glob w))).

Lemma keeps_bind {A B} (c : M A) (k : A -> M B) :
  keeps c -> (forall a, keeps (k a)) -> keeps (mbind c k).
Proof. intros Hc Hk. eapply triple_bind; [exact Hc|exact Hk]. Qed.

Lemma keeps_lift {A} (o : outcome A) : keeps (mlift o).
Proof. intros w Hw. unfold mlift. destruct o; exact Hw. Qed.

Lemma keeps_load (l : nat) : keeps (load l).
Proof. intros w Hw. unfold load. destruct (heap w !! l); exact Hw. Qed.

Lemma keeps_alloc (a : ndarray) : keeps (alloc a).
Proof. intros w Hw. exact Hw. Qed.

Lemma keeps_store (l : nat) (a : ndarray) : keeps (store l a).
Proof. intros w Hw. exact Hw. Qed.

Lemma keeps_ret {A} (a : A) : keeps (mret a).
Proof. intros w Hw. exact Hw. Qed.

Lemma keeps_raise {A} (e : exn) : keeps (@mraise A e).
Proof. intros w Hw. exact Hw. Qed.

Lemma keeps_setMagnetometers (n : nat) :
  keeps (on_globals (fun g => (@Ok unit tt, setMagnetometers n g))).
Proof. intros w Hw. exact Hw. Qed.

Lemma keeps_clusterNSGT (sig : matrix) : keeps (on_globals (clusterNSGT E sig)).
Proof.
  intros w Hw. unfold on_globals, clusterNSGT.
  destruct (obind _ _) as [m|e]; cbn [fst snd glob]; [|exact Hw].
  unfold updateCentroids. cbn [fst]. destruct (Nat.ltb _ _); exact Hw.
Qed.

Lemma keeps_demixNSGT (sig : matrix) : keeps (demixNSGT E sig).
Proof.
  intros w Hw. unfold demixNSGT. destruct (demix E (glob w) sig); exact Hw.
Qed.

Ltac keeps_step :=
  first [ apply keeps_lift | apply keeps_load | apply keeps_alloc | apply keeps_store
        | apply keeps_ret | apply keeps_raise | apply keeps_setMagnetometers
        | apply keeps_clusterNSGT | apply keeps_demixNSGT ].

Ltac keeps_seq :=
  repeat (lazymatch goal with
          | |- triple _ (mbind _ _) _ _ => apply keeps_bind; [keeps_step | intros ?]
          end).

Lemma keeps_assign_row (res axis : nat) (v : ndarray) : keeps (assign_row res axis v).
Proof. unfold assign_row. keeps_seq. repeat case_match; keeps_step. Qed.

Lemma keeps_clean_axis (B res axis : nat) : keeps (clean_axis E B res axis).
Proof. unfold clean_axis. keeps_seq. apply keeps_assign_row. Qed.

Lemma keeps_clean_flat (B : nat) : keeps (clean_flat E B).
Proof. unfold clean_flat. keeps_seq. keeps_step. Qed.

Lemma keeps_clean_triaxial (B : nat) : keeps (clean_triaxial E B).
Proof.
  unfold clean_triaxial. keeps_seq.
  do 3 (apply keeps_bind; [apply keeps_clean_axis|intros ?]). keeps_step.
Qed.

Lemma keeps_subtract_trend (B0 size : nat) : keeps (subtract_trend E B0 size).
Proof. unfold subtract_trend. keeps_seq. keeps_step. Qed.

Lemma keeps_remove_trend (B0 : nat) : keeps (remove_trend E B0).
Proof.
  intros w Hw. unfold remove_trend. destruct (detrend (glob w)); [|exact Hw].
  apply (keeps_subtract_trend B0 (uf (glob w)) w Hw).
Qed.

Lemma keeps_add_in_place (r : ref) (m : ndarray) : keeps (add_in_place r m).
Proof. destruct r; simpl; keeps_seq; keeps_step. Qed.

Lemma keeps_restore_trend (r : ref) (t : option nat) : keeps (restore_trend r t).
Proof.
  destruct t; simpl; [|keeps_step]. keeps_seq.
  apply keeps_bind; [apply keeps_add_in_place|intros ?]. keeps_step.
Qed.

Lemma keeps_clean (B0 : nat) (triaxial : bool) : keeps (clean E B0 triaxial).
Proof.
  unfold clean. apply keeps_bind; [apply keeps_remove_trend|intros d].
  apply keeps_bind; [|intros r; apply keeps_restore_trend].
  destruct triaxial; [apply keeps_clean_triaxial|apply keeps_clean_flat].
Qed.

End SettingsFrame.

(** X14.  Whether it returns or raises, [clean] leaves the parameters a
    user sets on the module ([uf], [detrend], [sigma], [lambda_], [sspTol],
    [bpo], [fs], [weight], [boom], [cs_iters]) as it found them: of the
    globals it assigns only [magnetometers], [clusterCentroids] and
    [result]. *)
Theorem clean_keeps_the_settings :
  forall (E : externals) (B0 : nat) (triaxial : bool) (w : world),
    settings_kept (glob w) (glob (clean E B0 triaxial w).2).
Proof.
  intros E B0 triaxial w.
  pose proof (keeps_clean E (glob w) B0 triaxial w) as H.
  destruct (clean E B0 triaxial w) as [[r|e] w']; apply H; repeat split.
Qed.

(** ** The array [clean] returns without [triaxial] *)

Section ResultView.

Variable E : externals.

Lemma triple_trivial {A} (c : M A) :
  triple (fun _ => True) c (fun _ _ => True) (fun _ => True).
Proof. intros w _. destruct (c w) as [[a|e] w']; exact I. Qed.

Lemma view_demixNSGT (sig : matrix) :
  triple (fun _ => True) (demixNSGT E sig) (fun l w => result_at l w) (fun _ => True).
Proof.
  intros w _. unfold demixNSGT. destruct (demix E (glob w) sig) as [arr|e]; [|exact I].
  split; [reflexivity|]. cbn [heap]. rewrite length_app. simpl. lia.
Qed.

Lemma view_clean_flat (B : nat) :
  triple (fun _ => True) (clean_flat E B)
    (fun r w => exists l, r = Row l 0 /\ result_at l w) (fun _ => True).
Proof.
  unfold clean_flat.
  do 7 (eapply triple_bind; [apply triple_trivial|intros ?]).
  eapply triple_bind; [apply view_demixNSGT|intros l].
  intros w Hl. unfold mbind, load, mlift, mret.
  destruct (heap w !! l) as [arr|]; [|exact I].
  destruct (nd_row arr 0); [|exact I].
  exists l. split; [reflexivity|exact Hl].
Qed.

Lemma view_add_in_place (l i : nat) (m : ndarray) :
  triple (result_at l) (add_in_place (Row l i) m) (fun _ => result_at l) (fun _ => True).
Proof.
  intros w [Hres Hlen]. cbn [add_in_place]. unfold mbind, load, mlift, store.
  destruct (heap w !! l) as [a|]; [|exact I].
  destruct (nd_row a i) as [v|]; [|exact I].
  destruct (nd_zip C128.add v m) as [s|]; [|exact I].
  split; cbn [glob heap]; [exact Hres|]. rewrite length_insert. exact Hlen.
Qed.

Lemma view_restore_trend (l : nat) (t : option nat) :
  triple (result_at l) (restore_trend (Row l 0) t)
    (fun r w => r = Row l 0 /\ result_at l w) (fun _ => True).
Proof.
  intros w Hw. destruct t as [tr|]; cbn [restore_trend];
    [|split; [reflexivity|exact Hw]].
  unfold mbind at 1 2, load, mlift.
  destruct (heap w !! tr) as [a|]; [|exact I].
  destruct (nd_mean0 a) as [m|]; [|exact I].
  pose proof (view_add_in_place l 0 m w Hw) as H. unfold mbind.
  destruct (add_in_place (Row l 0) m w) as [[u|e] w']; [|exact I].
  split; [reflexivity|exact H].
Qed.

Lemma view_clean (B0 : nat) :
  triple (fun _ => True) (clean E B0 false)
    (fun r w => exists l, r = Row l 0 /\ result_at l w) (fun _ => True).
Proof.
  unfold clean.
  eapply triple_bind; [apply triple_trivial|intros d].
  eapply triple_bind; [apply view_clean_flat|intros r].
  intros w [l [-> Hl]].
  pose proof (view_restore_trend l d.2 w Hl) as H.
  destruct (restore_trend (Row l 0) d.2 w) as [[r'|e] w']; [|exact I].
  destruct H as [-> H]. exists l. split; [reflexivity|exact H].
Qed.

End ResultView.

(** X15.  The array [clean] returns with [triaxial=False] is a view: row 0
    of the array the module global [result] refers to on return.  The
    in-place [result += np.mean(trend, axis=0)] goes through this view. *)
Theorem clean_flat_returns_a_view_of_the_global_result :
  forall (E : externals) (B0 : nat) (w w' : world) (r : ref),
    clean E B0 false w = (Ok r, w') ->
    exists l, r = Row l 0 /\ result (glob w') = Some l /\ l < length (heap w').
Proof.
  intros E B0 w w' r H. pose proof (view_clean E B0 w I) as Hv.
  rewrite H in Hv. exact Hv.
Qed.

Lemma clean_flat_view_example :
  exists l,
    Row 1 0 = Row l 0 /\
    result (glob (clean example_externals 0 false example_world_flat).2) = Some l /\
    l < length (heap (clean example_externals 0 false example_world_flat).2).
Proof.
  apply (clean_flat_returns_a_view_of_the_global_result example_externals 0
           example_world_flat (clean example_externals 0 false example_world_flat).2
           (Row 1 0)).
  vm_compute. reflexivity.
Defined.
